(** * count_article_nouns: article/noun co-occurrence counting

    A shallow embedding of [count_article_nouns.py] and the properties of its
    three stages: the noun frequency counter ([most_frequent_nouns]), the
    article classifier ([process_sentence]) and the aggregation with the
    hapax merge ([main]).

    Modelling conventions.
    - A Python [str] is a [string]; a character is a code point below 256
      (Latin-1), and the character classes of [str.isspace], [str.isalpha]
      and [str.lower] are the ones CPython uses on that range.
    - A [Counter] (a [dict] subclass) is an association list in insertion
      order, the order a Python dict keeps (3.7 and later), because
      [Counter.most_common] breaks ties by that order.
    - Counts are natural numbers; the limits of the int64/float64 cells of a
      pandas frame are not modelled.
    - Exceptions are explicit: a computation that can raise returns a
      [result].
    - The corpus files are the lists of their lines, the parser is a
      function from a sentence to a document or an exception, and [main]
      returns the frame it saves. *)

From Stdlib Require Import List String Ascii Arith Bool Lia ZArith.
From Stdlib Require Import Sorting.Permutation Sorting.Sorted.
Import ListNotations.
Local Open Scope string_scope.
Local Open Scope nat_scope.
Local Open Scope list_scope.

(** ** Python strings *)

Module Str.

Definition tab : ascii := ascii_of_nat 9.
Definition newline : ascii := ascii_of_nat 10.

Definition between (lo hi n : nat) : bool := (lo <=? n) && (n <=? hi).

(** [c.isspace()] *)
Definition isspace_char (c : ascii) : bool :=
  let n := nat_of_ascii c in
  between 9 13 n || between 28 32 n || (n =? 133) || (n =? 160).

(** [c.isalpha()] *)
Definition isalpha_char (c : ascii) : bool :=
  let n := nat_of_ascii c in
  between 65 90 n || between 97 122 n
  || (n =? 170) || (n =? 181) || (n =? 186)
  || between 192 214 n || between 216 246 n || between 248 255 n.

(** [c.lower()] *)
Definition lower_char (c : ascii) : ascii :=
  let n := nat_of_ascii c in
  if between 65 90 n || between 192 214 n || between 216 222 n
  then ascii_of_nat (n + 32) else c.

(** [s.lower()] *)
Fixpoint lower (s : string) : string :=
  match s with
  | EmptyString => EmptyString
  | String c r => String (lower_char c) (lower r)
  end.

Fixpoint all_alpha (s : string) : bool :=
  match s with
  | EmptyString => true
  | String c r => isalpha_char c && all_alpha r
  end.

(** [s.isalpha()]: every character is alphabetic and there is at least one *)
Definition isalpha (s : string) : bool :=
  match s with
  | EmptyString => false
  | String _ _ => all_alpha s
  end.

(** [s.lstrip()] *)
Fixpoint lstrip (s : string) : string :=
  match s with
  | EmptyString => EmptyString
  | String c r => if isspace_char c then lstrip r else s
  end.

(** [s.rstrip()] *)
Fixpoint rstrip (s : string) : string :=
  match s with
  | EmptyString => EmptyString
  | String c r =>
      match rstrip r with
      | EmptyString => if isspace_char c then EmptyString else String c EmptyString
      | r' => String c r'
      end
  end.

(** [s.strip()] *)
Definition strip (s : string) : string := rstrip (lstrip s).

(** [s.split(sep)] for a one-character separator: never the empty list *)
Fixpoint split (sep : ascii) (s : string) : list string :=
  match s with
  | EmptyString => [EmptyString]
  | String c r =>
      if Ascii.eqb c sep then EmptyString :: split sep r
      else match split sep r with
           | f :: fs => String c f :: fs
           | [] => [String c EmptyString]
           end
  end.

(** [s.startswith(p)] *)
Definition startswith (s p : string) : bool := String.prefix p s.

(** [x in xs] for a tuple or the keys of a dict *)
Definition mem (x : string) (xs : list string) : bool :=
  existsb (String.eqb x) xs.

(** The field separator of the tagged corpus and a line of it as the file
    iterator yields it, with its line end. *)
Definition tsv (token tag : string) : string :=
  (token ++ String tab (tag ++ String newline EmptyString))%string.

End Str.

(** ** Exceptions *)

Inductive exn : Type :=
  | KeyError (key : string)
  | ParserError (msg : string).

Inductive result (A : Type) : Type :=
  | Ok (a : A)
  | Raise (e : exn).

Arguments Ok {A} a.
Arguments Raise {A} e.

Definition bind {A B : Type} (m : result A) (k : A -> result B) : result B :=
  match m with
  | Ok a => k a
  | Raise e => Raise e
  end.

Notation "x <- m ;; k" := (bind m (fun x => k))
  (at level 61, m at next level, right associativity).

(** A [for] loop whose body can raise: the first exception ends the loop. *)
Fixpoint foldM {A S : Type} (body : S -> A -> result S) (xs : list A) (s : S)
  : result S :=
  match xs with
  | [] => Ok s
  | x :: xs' => s' <- body s x ;; foldM body xs' s'
  end.

(** ** Counter *)

Definition Counter : Type := list (string * nat).

Definition keys (c : Counter) : list string := map fst c.

(** [c[k]] on a Counter: a missing key counts 0 *)
Fixpoint get (c : Counter) (k : string) : nat :=
  match c with
  | [] => 0
  | (k', v) :: r => if String.eqb k k' then v else get r k
  end.

(** [c.get(k)] as a plain dict: a missing key is absent *)
Fixpoint lookup (c : Counter) (k : string) : option nat :=
  match c with
  | [] => None
  | (k', v) :: r => if String.eqb k k' then Some v else lookup r k
  end.

(** [c[k] += 1]: an existing key keeps its place, a new key goes last *)
Fixpoint incr (k : string) (c : Counter) : Counter :=
  match c with
  | [] => [(k, 1)]
  | (k', v) :: r =>
      if String.eqb k k' then (k', S v) :: r else (k', v) :: incr k r
  end.

(** [sorted(c.items(), key=itemgetter(1), reverse=True)]: a stable sort, so
    entries of equal count keep their insertion order. *)
Fixpoint insert_desc (x : string * nat) (l : Counter) : Counter :=
  match l with
  | [] => [x]
  | y :: r => if snd y <=? snd x then x :: l else y :: insert_desc x r
  end.

Definition sorted_desc (c : Counter) : Counter := fold_right insert_desc [] c.

(** [c.most_common(n)], that is [heapq.nlargest(n, c.items(), key=count)]:
    the first [n] entries of the stable descending sort, none for [n <= 0]. *)
Definition most_common (n : Z) (c : Counter) : Counter :=
  firstn (Z.to_nat n) (sorted_desc c).

(** ** most_frequent_nouns *)

(** The body of the [for line in corpus] loop: the unpacking of a split that
    has not exactly two fields raises ValueError, which is caught. *)
Definition count_line (frequencies : Counter) (line : string) : Counter :=
  match Str.split Str.tab (Str.lower (Str.strip line)) with
  | [token; tag] =>
      if Str.startswith tag "nn" then incr token frequencies else frequencies
  | _ => frequencies
  end.

Definition count_lines (corpus : list string) : Counter :=
  fold_left count_line corpus [].

(** remove words with non-alphabetic characters *)
Definition remove_non_alpha (frequencies : Counter) : Counter :=
  filter (fun e => Str.isalpha (fst e)) frequencies.

(** [if top_n:] is false for [None] and for [0]; any other integer is
    passed to [most_common]. The dict comprehension and [Counter(...)] that
    wrap the result keep its entries and their order. *)
Definition most_frequent_nouns (corpus : list string) (top_n : option Z)
  : Counter :=
  let frequencies := remove_non_alpha (count_lines corpus) in
  match top_n with
  | None => frequencies
  | Some n => if (n =? 0)%Z then frequencies else most_common n frequencies
  end.

(** ** generate_sentences *)

Definition generate_sentences (corpus : list string) : list string :=
  filter (fun line =>
            negb (Str.startswith line "---")
            && negb (String.eqb (Str.strip line) EmptyString))
         corpus.

(** ** The parser's objects, as far as the classifier reads them *)

Unset Elimination Schemes.
Inductive Token : Type :=
  mkToken { text : string; dep_ : string; children : list Token }.
Set Elimination Schemes.

Record Span : Type := mkSpan { root : Token }.

Record Doc : Type := mkDoc { noun_chunks : list Span }.

(** The parser: a document for a sentence, or an exception. *)
Definition Language : Type := string -> result Doc.

(** ** process_sentence *)

Definition possessives : list string :=
  ["my"; "your"; "his"; "her"; "its"; "their"; "our"].

(** The [for child in noun_chunk.root.children] loop: [Some article] when
    it leaves by [break], [None] when it runs to its [else]. *)
Fixpoint scan_children (cs : list Token) : option string :=
  match cs with
  | [] => None
  | child :: rest =>
      if negb (Str.isalpha (text child)) then scan_children rest
      else if String.eqb (dep_ child) "det" then
        Some (Str.lower (text child))
      else if String.eqb (dep_ child) "poss" then
        let article := Str.lower (text child) in
        Some (if negb (Str.mem article possessives)
              then "other_possessive" else article)
      else scan_children rest
  end.

(** One turn of the [for noun_chunk in sent.noun_chunks] loop: the pairs it
    yields. *)
Definition process_chunk (target_nouns : list string) (noun_chunk : Span)
  : list (string * string) :=
  let noun := Str.lower (text (root noun_chunk)) in
  if negb (Str.mem noun target_nouns) then []
  else match scan_children (children (root noun_chunk)) with
       | Some article => [(noun, article)]
       | None => [(noun, "no_article")]
       end.

(** The generator, as the list of the pairs it yields; the parser runs
    before the first of them, so an exception of the parser leaves none. *)
Definition process_sentence (sentence : string) (target_nouns : Counter)
  (nlp : Language) : result (list (string * string)) :=
  sent <- nlp sentence ;;
  Ok (flat_map (process_chunk (keys target_nouns)) (noun_chunks sent)).

(** ** pandas frames *)

(** A frame is stored by column: the row labels, and for each column its
    label and its cells, one per row. *)
Record DataFrame (A : Type) : Type :=
  mkFrame { index : list string; cols : list (string * list A) }.

Arguments mkFrame {A} index cols.
Arguments index {A} d.
Arguments cols {A} d.

Definition columns {A : Type} (df : DataFrame A) : list string :=
  map fst (cols df).

(** The union of the key lists of the inner dicts, in order of first
    appearance (pandas versions that sort the union give the same labels in
    another order; no property below depends on the order of the columns). *)
Fixpoint add_new (seen ks : list string) : list string :=
  match ks with
  | [] => seen
  | k :: r => add_new (if Str.mem k seen then seen else seen ++ [k]) r
  end.

Definition union_indexes (kss : list (list string)) : list string :=
  fold_left add_new kss [].

(** [pd.DataFrame(d)] for a dict of dicts: a column per outer key, a row per
    inner key, a missing cell where the inner dict has no such key. *)
Definition DataFrame_of_dict (d : list (string * Counter))
  : DataFrame (option nat) :=
  let idx := union_indexes (map (fun e => keys (snd e)) d) in
  mkFrame idx (map (fun e => (fst e, map (lookup (snd e)) idx)) d).

Definition heads {A : Type} (cs : list (list A)) : list A :=
  flat_map (fun c => match c with [] => [] | x :: _ => [x] end) cs.

Fixpoint rows_of {A : Type} (idx : list string) (cs : list (list A))
  : list (string * list A) :=
  match idx with
  | [] => []
  | r :: idx' => (r, heads cs) :: rows_of idx' (map (@tl A) cs)
  end.

(** [df.T] *)
Definition T {A : Type} (df : DataFrame A) : DataFrame A :=
  mkFrame (columns df) (rows_of (index df) (map snd (cols df))).

(** [df.fillna(v)], with [astype(int)] the identity on counts *)
Definition fillna (v : nat) (df : DataFrame (option nat)) : DataFrame nat :=
  mkFrame (index df)
    (map (fun c => (fst c, map (fun x => match x with Some n => n | None => v end)
                             (snd c)))
         (cols df)).

(** [df.sum(0)]: the total of every column *)
Definition sum0 (df : DataFrame nat) : list (string * nat) :=
  map (fun c => (fst c, list_sum (snd c))) (cols df).

(** Addition of two series over the same index *)
Fixpoint vadd (u v : list nat) : list nat :=
  match u, v with
  | x :: u', y :: v' => (x + y) :: vadd u' v'
  | _, _ => []
  end.

(** [df.sum(1)]: the total of every row, 0 in a frame without columns *)
Definition sum1 (df : DataFrame nat) : list nat :=
  fold_right vadd (repeat 0 (List.length (index df))) (map snd (cols df)).

(** [df[label]] *)
Fixpoint find_col {A : Type} (label : string) (cs : list (string * list A))
  : result (list A) :=
  match cs with
  | [] => Raise (KeyError label)
  | c :: r => if String.eqb label (fst c) then Ok (snd c) else find_col label r
  end.

Definition getitem {A : Type} (df : DataFrame A) (label : string)
  : result (list A) :=
  find_col label (cols df).

(** [df[labels]] *)
Fixpoint find_cols {A : Type} (labels : list string)
  (cs : list (string * list A)) : result (list (string * list A)) :=
  match labels with
  | [] => Ok []
  | l :: r =>
      c <- find_col l cs ;;
      sub <- find_cols r cs ;;
      Ok ((l, c) :: sub)
  end.

Definition getitems {A : Type} (df : DataFrame A) (labels : list string)
  : result (DataFrame A) :=
  sub <- find_cols labels (cols df) ;;
  Ok (mkFrame (index df) sub).

(** [df[label] = s]: an existing column is replaced where it stands, a new
    one is added last *)
Fixpoint set_col {A : Type} (label : string) (s : list A)
  (cs : list (string * list A)) : list (string * list A) :=
  match cs with
  | [] => [(label, s)]
  | c :: r =>
      if String.eqb label (fst c) then (label, s) :: r
      else c :: set_col label s r
  end.

Definition setitem {A : Type} (df : DataFrame A) (label : string) (s : list A)
  : DataFrame A :=
  mkFrame (index df) (set_col label s (cols df)).

(** [df.drop(columns=labels)]: every label has to be a column *)
Definition drop {A : Type} (df : DataFrame A) (labels : list string)
  : result (DataFrame A) :=
  match filter (fun l => negb (Str.mem l (columns df))) labels with
  | missing :: _ => Raise (KeyError missing)
  | [] =>
      Ok (mkFrame (index df)
            (filter (fun c => negb (Str.mem (fst c) labels)) (cols df)))
  end.

(** ** main *)

(** [nouns_articles[noun][article] += 1] *)
Fixpoint record (nouns_articles : list (string * Counter))
  (observation : string * string) : result (list (string * Counter)) :=
  match nouns_articles with
  | [] => Raise (KeyError (fst observation))
  | row :: rest =>
      if String.eqb (fst observation) (fst row)
      then Ok ((fst row, incr (snd observation) (snd row)) :: rest)
      else rest' <- record rest observation ;; Ok (row :: rest')
  end.

(** The loop over the sentences (lines 127 to 129). *)
Definition count_articles (nlp : Language) (nouns : Counter)
  (sentences : list string) : result (list (string * Counter)) :=
  foldM (fun nouns_articles sentence =>
           observations <- process_sentence sentence nouns nlp ;;
           foldM record observations nouns_articles)
        sentences
        (map (fun e => (fst e, @nil (string * nat))) nouns).

(** The table before the merge (line 130). *)
Definition to_frame (nouns_articles : list (string * Counter))
  : DataFrame nat :=
  fillna 0 (T (DataFrame_of_dict nouns_articles)).

(** ignore hapax legomena (add counts to no_article), lines 133 to 135.
    The augmented assignment reads its target before its right-hand side. *)
Definition hapaxes_of (df : DataFrame nat) : list string :=
  map fst (filter (fun t => snd t =? 1) (sum0 df)).

Definition merge_hapaxes (nouns_articles : DataFrame nat)
  : result (DataFrame nat) :=
  let hapaxes := hapaxes_of nouns_articles in
  no_article <- getitem nouns_articles "no_article" ;;
  sub <- getitems nouns_articles hapaxes ;;
  drop (setitem nouns_articles "no_article" (vadd no_article (sum1 sub)))
       hapaxes.

(** [main] with the literal 1000 of line 123 as a parameter, and the frame
    it saves as its result. *)
Definition main_with (top_n : option Z) (nlp : Language)
  (tagged sentences : list string) : result (DataFrame nat) :=
  let nouns := most_frequent_nouns tagged top_n in
  nouns_articles <- count_articles nlp nouns (generate_sentences sentences) ;;
  merge_hapaxes (to_frame nouns_articles).

Definition main : Language -> list string -> list string
                  -> result (DataFrame nat) :=
  main_with (Some 1000%Z).

(** ** Vocabulary of the properties *)

(** The text contains a character that is not alphabetic. *)
Definition non_alphabetic (s : string) : bool :=
  existsb (fun c => negb (Str.isalpha_char c)) (list_ascii_of_string s).

(** The child bears a determiner or a possessive-modifier relation. *)
Definition article_dep (x : Token) : bool :=
  String.eqb (dep_ x) "det" || String.eqb (dep_ x) "poss".

(** The scan passes over a child that has no text, that has a character
    which is not alphabetic, or that bears another relation. *)
Definition passed_over (x : Token) : Prop :=
  text x = EmptyString \/ non_alphabetic (text x) = true
  \/ article_dep x = false.

(** The child ends the scan: its text is alphabetic and it bears a
    determiner or a possessive-modifier relation. *)
Definition decisive (x : Token) : Prop :=
  text x <> EmptyString /\ non_alphabetic (text x) = false
  /\ article_dep x = true.

(** The label a decisive child gives. *)
Definition label_of (x : Token) : string :=
  if String.eqb (dep_ x) "det" then Str.lower (text x)
  else if Str.mem (Str.lower (text x)) possessives then Str.lower (text x)
  else "other_possessive".

(** The lowercased head of a chunk. *)
Definition head_noun (chunk : Span) : string := Str.lower (text (root chunk)).

(** The fields of a line of the tagged corpus. *)
Definition fields (line : string) : list string :=
  Str.split Str.tab (Str.lower (Str.strip line)).

(** The noun a line contributes: the first of its two fields when the
    second starts with "nn". *)
Definition noun_token (line : string) : option string :=
  match fields line with
  | [token; tag] => if Str.startswith tag "nn" then Some token else None
  | _ => None
  end.

(** The nouns of the corpus in the order the scan meets them. *)
Definition noun_tokens (corpus : list string) : list string :=
  flat_map (fun line => match noun_token line with
                        | Some token => [token]
                        | None => []
                        end) corpus.

(** The distinct elements of a list, each at its first occurrence. *)
Fixpoint first_occurrences (l : list string) : list string :=
  match l with
  | [] => []
  | x :: r => x :: filter (fun y => negb (String.eqb y x)) (first_occurrences r)
  end.

(** Descending order of count. *)
Definition ge_count (a b : string * nat) : Prop := snd b <= snd a.

(** The entries of a given count, in the order of the list. *)
Definition with_count (v : nat) (c : Counter) : Counter :=
  filter (fun e => snd e =? v) c.

(** A loop that collects results and stops at the first exception. *)
Fixpoint mapM {A B : Type} (f : A -> result B) (xs : list A)
  : result (list B) :=
  match xs with
  | [] => Ok []
  | x :: xs' => y <- f x ;; ys <- mapM f xs' ;; Ok (y :: ys)
  end.

(** Every pair the classifier yields over the sentences, in order. *)
Definition observations (nlp : Language) (nouns : Counter)
  (sentences : list string) : result (list (string * string)) :=
  all <- mapM (fun sentence => process_sentence sentence nouns nlp) sentences ;;
  Ok (List.concat all).

(** The counter of a noun in the dict of counters, empty when absent. *)
Definition row (nouns_articles : list (string * Counter)) (noun : string)
  : Counter :=
  match find (fun r => String.eqb noun (fst r)) nouns_articles with
  | Some r => snd r
  | None => []
  end.

(** The sum of the counts of a counter. *)
Definition total (c : Counter) : nat := list_sum (map snd c).

(** The number of pairs observed for a noun. *)
Definition occurrences (noun : string) (obs : list (string * string)) : nat :=
  List.length (filter (fun o => String.eqb (fst o) noun) obs).

(** The total of the row of a noun in a frame, and the total of a frame. *)
Definition row_total (df : DataFrame nat) (noun : string) : nat :=
  get (combine (index df) (sum1 df)) noun.

Definition grand_total (df : DataFrame nat) : nat := list_sum (sum1 df).

(** The total of a column, 0 when the frame has no such column. *)
Definition column_total (df : DataFrame nat) (label : string) : nat :=
  get (sum0 df) label.

(** The table [main] holds before the merge (lines 123 to 130). *)
Definition table_before_merge (top_n : option Z) (nlp : Language)
  (tagged sentences : list string) : result (DataFrame nat) :=
  let nouns := most_frequent_nouns tagged top_n in
  nouns_articles <- count_articles nlp nouns (generate_sentences sentences) ;;
  Ok (to_frame nouns_articles).

(** The sum of a list of series over an index of [n] rows. *)
Definition vsum (n : nat) (vs : list (list nat)) : list nat :=
  fold_right vadd (repeat 0 n) vs.

(** A column is hapax when its total is exactly 1. *)
Definition hapax (c : string * list nat) : bool := list_sum (snd c) =? 1.

(** A frame as pandas keeps it: distinct column labels, and a cell in every
    column for every row. *)
Definition well_formed (df : DataFrame nat) : Prop :=
  NoDup (columns df)
  /\ Forall (fun c => List.length (snd c) = List.length (index df)) (cols df).

(** The chunks of the documents whose lowercased head is the noun. *)
Definition chunk_occurrences (noun : string) (docs : list Doc) : nat :=
  List.length (filter (fun chunk => String.eqb (head_noun chunk) noun)
                 (flat_map noun_chunks docs)).

(** The line contributes an alphabetic noun to the table. *)
Definition counted_line (line : string) : bool :=
  match noun_token line with
  | Some token => Str.isalpha token
  | None => false
  end.

(** The label the scan gives a chunk. *)
Definition chunk_label (chunk : Span) : string :=
  match scan_children (children (root chunk)) with
  | Some article => article
  | None => "no_article"
  end.

(** The chunks of the documents with a given head and a given label. *)
Definition labelled_chunks (noun label : string) (docs : list Doc) : nat :=
  List.length
    (filter (fun chunk => String.eqb (head_noun chunk) noun
                          && String.eqb (chunk_label chunk) label)
       (flat_map noun_chunks docs)).

(** The cell of a frame at a row and a column, 0 outside the frame. *)
Definition cell (df : DataFrame nat) (noun label : string) : nat :=
  match getitem df label with
  | Ok col => get (combine (index df) col) noun
  | Raise _ => 0
  end.

(** A line that [generate_sentences] skips. *)
Definition skipped_line (line : string) : bool :=
  Str.startswith line "---" || String.eqb (Str.strip line) EmptyString.

(** ** Examples *)

Module Toy.

Definition tok (t d : string) : Token := mkToken t d [].

Definition chunk (head : string) (cs : list Token) : Span :=
  mkSpan (mkToken head "nsubj" cs).

Definition the_dog : Span := chunk "dog" [tok "The" "det"].
Definition my_dog : Span := chunk "dog" [tok "My" "poss"].
Definition marys_dog : Span :=
  chunk "dog" [tok "Mary" "poss"; tok "'s" "case"; tok "old" "amod"].
Definition bare_dog : Span := chunk "Dog" [].
Definition all_the_kings_horses : Span :=
  chunk "horses" [tok "3" "nummod"; tok "king" "poss"; tok "the" "det"].

(** Scenario 1 of the tagged corpus. *)
Definition scenario_1 : list string :=
  [Str.tsv "the" "DT"; Str.tsv "dog" "NN"; Str.tsv "barked" "VBD";
   Str.tsv "loudly" "RB"].

(** A pair separated by a space instead of a tab. *)
Definition space_line : string :=
  ("dog NN" ++ String Str.newline EmptyString)%string.

(** Six noun lines with three nouns of count 2, 2 and 1 and a tie on 2. *)
Definition tie_corpus : list string :=
  [Str.tsv "cat" "NN"; Str.tsv "dog" "NN"; Str.tsv "emu" "NNS";
   Str.tsv "dog" "NN"; Str.tsv "Cat" "NNP"; Str.tsv "x1" "NN"].

(** A line of the sentence corpus, with its line end. *)
Definition line (sentence : string) : string :=
  (sentence ++ String Str.newline EmptyString)%string.

(** A stand-in for the parser on five sentences; it raises on the fifth. *)
Definition nlp : Language := fun sentence =>
  let s := Str.strip sentence in
  if String.eqb s "The dog barked." then Ok (mkDoc [the_dog])
  else if String.eqb s "My dog barked." then Ok (mkDoc [my_dog])
  else if String.eqb s "Mary's old dog barked." then Ok (mkDoc [marys_dog])
  else if String.eqb s "Dog barked." then Ok (mkDoc [bare_dog])
  else if String.eqb s "<<<" then Raise (ParserError "malformed")
  else Ok (mkDoc []).

Definition dog_corpus : list string := [Str.tsv "dog" "NN"].

(** "the" twice and no article once. *)
Definition one_bare_dog : list string :=
  [line "The dog barked."; line "The dog barked."; line "Dog barked."].

(** "the" twice, "my" once and no article once. *)
Definition one_bare_one_my : list string :=
  [line "The dog barked."; line "My dog barked."; line "The dog barked.";
   line "Dog barked."].

(** "the" twice and no article twice. *)
Definition two_bare_dogs : list string :=
  [line "Dog barked."; line "The dog barked."; line "The dog barked.";
   line "Dog barked."].

(** Only chunks with a determiner or a possessive. *)
Definition no_bare_dog : list string :=
  [line "The dog barked."; line "My dog barked."; line "The dog barked."].

(** A tagged corpus without a noun. *)
Definition no_noun_corpus : list string :=
  [Str.tsv "the" "DT"; Str.tsv "barked" "VBD"].

(** A corpus with malformed lines, other tags and a noun that is not
    alphabetic among its noun lines. *)
Definition noisy_corpus : list string :=
  [Str.tsv " Cat" "NN"; "no tab here"; Str.tsv "x1" "NN"; Str.tsv "ran" "VBD";
   Str.tsv "dog" "nns"; Str.tsv "CAT" "NNP"; Str.tsv "a" (Str.tsv "b" "NN")].

(** A parser like [nlp] that raises on separators and blank lines. *)
Definition strict_nlp : Language := fun sentence =>
  if Str.startswith sentence "---"
     || String.eqb (Str.strip sentence) EmptyString
  then Raise (ParserError "not a sentence")
  else nlp sentence.

(** A sentence corpus with a document separator and a blank line. *)
Definition corpus_with_separators : list string :=
  [line "--- document 1"; line "Dog barked."; line "   ";
   line "The dog barked."; line "Dog barked."; line "The dog barked."].

(** A frame with two hapax columns and a "no_article" column of total 2. *)
Definition sparse_frame : DataFrame nat :=
  mkFrame ["dog"; "cat"]
    [("the", [2; 1]); ("my", [1; 0]); ("no_article", [0; 2]);
     ("other_possessive", [0; 1])].

(** A frame whose "no_article" column is hapax. *)
Definition lonely_frame : DataFrame nat :=
  mkFrame ["dog"; "cat"]
    [("the", [2; 1]); ("my", [1; 0]); ("no_article", [0; 1])].

End Toy.

(** ** The classifier *)

Arguments Str.mem : simpl never.

Lemma isalpha_char_lower (c : ascii) :
  Str.isalpha_char c = true -> Str.isalpha_char (Str.lower_char c) = true.
Proof.
  destruct c as [[] [] [] [] [] [] [] []]; vm_compute; congruence.
Qed.

Lemma all_alpha_spec (s : string) :
  Str.all_alpha s = negb (non_alphabetic s).
Proof.
  unfold non_alphabetic.
  induction s as [|c r IH]; simpl; [reflexivity|].
  rewrite IH, negb_orb, negb_involutive. reflexivity.
Qed.

(** [isalpha] holds of the texts that are not empty and have only
    alphabetic characters. *)
Lemma isalpha_spec (s : string) :
  Str.isalpha s = true <-> s <> EmptyString /\ non_alphabetic s = false.
Proof.
  destruct s as [|c r].
  - simpl. split; [discriminate | intros [H _]; congruence].
  - unfold Str.isalpha. rewrite all_alpha_spec, negb_true_iff.
    split; [intros H; split; [discriminate | exact H] | intros [_ H]; exact H].
Qed.

Lemma passed_over_spec (x : Token) :
  passed_over x <-> Str.isalpha (text x) && article_dep x = false.
Proof.
  unfold passed_over. rewrite andb_false_iff.
  split.
  - intros [H | [H | H]]; [left | left | right; exact H].
    + rewrite H. reflexivity.
    + destruct (Str.isalpha (text x)) eqn:E; [|reflexivity].
      apply isalpha_spec in E. destruct E as [_ E]. congruence.
  - intros [H | H]; [|right; right; exact H].
    destruct (text x) as [|c r] eqn:E; [left; reflexivity|].
    right; left. unfold Str.isalpha in H.
    rewrite all_alpha_spec in H. apply negb_false_iff in H. exact H.
Qed.

Lemma decisive_spec (x : Token) :
  decisive x <-> Str.isalpha (text x) && article_dep x = true.
Proof.
  unfold decisive. rewrite andb_true_iff, isalpha_spec. tauto.
Qed.

Lemma scan_children_step_passed (x : Token) (rest : list Token) :
  passed_over x -> scan_children (x :: rest) = scan_children rest.
Proof.
  intros H. apply passed_over_spec in H. simpl.
  unfold article_dep in H.
  destruct (Str.isalpha (text x)); simpl in *; [|reflexivity].
  apply orb_false_iff in H. destruct H as [-> ->]. reflexivity.
Qed.

Lemma scan_children_step_decisive (x : Token) (rest : list Token) :
  decisive x -> scan_children (x :: rest) = Some (label_of x).
Proof.
  intros H. apply decisive_spec in H. simpl.
  unfold article_dep, label_of in *.
  destruct (Str.isalpha (text x)); simpl in *; [|discriminate].
  destruct (String.eqb (dep_ x) "det"); [reflexivity|].
  simpl in H. rewrite H.
  destruct (Str.mem (Str.lower (text x)) possessives); reflexivity.
Qed.

(** The scan returns the label of the first decisive child, whatever comes
    after it. *)
Lemma scan_children_first (pre post : list Token) (c : Token) :
  (forall x, In x pre -> passed_over x) -> decisive c ->
  scan_children (pre ++ c :: post) = Some (label_of c).
Proof.
  induction pre as [|x pre IH]; intros Hpre Hc.
  - apply scan_children_step_decisive. exact Hc.
  - change ((x :: pre) ++ c :: post) with (x :: (pre ++ c :: post)).
    rewrite scan_children_step_passed by (apply Hpre; left; reflexivity).
    apply IH; [|exact Hc]. intros y Hy. apply Hpre. right. exact Hy.
Qed.

(** The scan runs to its end exactly over children that are all passed
    over. *)
Lemma scan_children_none (cs : list Token) :
  (forall x, In x cs -> passed_over x) -> scan_children cs = None.
Proof.
  induction cs as [|x cs IH]; intros H; [reflexivity|].
  rewrite scan_children_step_passed by (apply H; left; reflexivity).
  apply IH. intros y Hy. apply H. right. exact Hy.
Qed.

(** A child that is passed over can be taken out of the list. *)
Lemma scan_children_skip (pre post : list Token) (x : Token) :
  passed_over x ->
  scan_children (pre ++ x :: post) = scan_children (pre ++ post).
Proof.
  intros Hx. induction pre as [|y pre IH].
  - apply scan_children_step_passed. exact Hx.
  - simpl. rewrite IH. reflexivity.
Qed.

Lemma process_chunk_target (target_nouns : list string) (chunk : Span) :
  Str.mem (head_noun chunk) target_nouns = true ->
  process_chunk target_nouns chunk =
  [(head_noun chunk,
    match scan_children (children (root chunk)) with
    | Some article => article
    | None => "no_article"
    end)].
Proof.
  intros H. unfold process_chunk. fold (head_noun chunk). rewrite H. simpl.
  destruct (scan_children (children (root chunk))); reflexivity.
Qed.

(** C5: a chunk whose lowercased head is not a target noun emits nothing;
    a chunk whose head is a target noun emits exactly one pair, for its
    noun; a child whose text has a character that is not alphabetic can be
    taken out of the children without changing what is emitted; and the
    first child, in the given order, that is alphabetic and bears a
    determiner or a possessive relation gives the label, whichever of the
    two relations it bears and whatever children follow it. *)
Theorem C5_first_article_child_labels_chunk :
  forall (target_nouns : list string) (chunk : Span),
    (Str.mem (head_noun chunk) target_nouns = false ->
     process_chunk target_nouns chunk = [])
    /\ (Str.mem (head_noun chunk) target_nouns = true ->
        (exists label,
            process_chunk target_nouns chunk = [(head_noun chunk, label)])
        /\ (forall pre x post,
               children (root chunk) = pre ++ x :: post ->
               non_alphabetic (text x) = true ->
               process_chunk target_nouns chunk =
               process_chunk target_nouns
                 (mkSpan (mkToken (text (root chunk)) (dep_ (root chunk))
                            (pre ++ post))))
        /\ (forall pre c post,
               children (root chunk) = pre ++ c :: post ->
               (forall x, In x pre -> passed_over x) ->
               decisive c ->
               process_chunk target_nouns chunk
               = [(head_noun chunk, label_of c)])).
Proof.
  intros target_nouns chunk. split.
  - intros H. unfold process_chunk. fold (head_noun chunk). rewrite H.
    reflexivity.
  - intros H. split; [|split].
    + rewrite (process_chunk_target _ _ H). eexists. reflexivity.
    + intros pre x post Hc Hx.
      rewrite (process_chunk_target _ _ H).
      rewrite process_chunk_target by exact H.
      unfold head_noun. simpl. rewrite Hc.
      rewrite scan_children_skip; [reflexivity|].
      right; left. exact Hx.
    + intros pre c post Hc Hpre Hdec.
      rewrite (process_chunk_target _ _ H), Hc.
      rewrite (scan_children_first pre post c Hpre Hdec). reflexivity.
Qed.

Lemma C5_first_article_child_labels_chunk_witness :
  process_chunk ["cat"] Toy.the_dog = []
  /\ process_chunk ["horses"] Toy.all_the_kings_horses
     = [("horses", "other_possessive")].
Proof.
  split.
  - exact (proj1 (C5_first_article_child_labels_chunk ["cat"] Toy.the_dog)
             eq_refl).
  - refine (proj2 (proj2 (proj2 (C5_first_article_child_labels_chunk
                                   ["horses"] Toy.all_the_kings_horses)
                            eq_refl))
              [Toy.tok "3" "nummod"] (Toy.tok "king" "poss")
              [Toy.tok "the" "det"] eq_refl _ _).
    + intros x [<- | []]. right; left. reflexivity.
    + split; [discriminate | split; reflexivity].
Defined.

Lemma mem_In (x : string) (xs : list string) :
  Str.mem x xs = true <-> In x xs.
Proof.
  unfold Str.mem. rewrite existsb_exists. split.
  - intros [y [Hy E]]. apply String.eqb_eq in E. subst. exact Hy.
  - intros H. exists x. split; [exact H | apply String.eqb_refl].
Qed.

Lemma mem_false (x : string) (xs : list string) :
  Str.mem x xs = false <-> ~ In x xs.
Proof.
  rewrite <- mem_In. destruct (Str.mem x xs); split; congruence.
Qed.

Lemma all_alpha_lower (s : string) :
  Str.all_alpha s = true -> Str.all_alpha (Str.lower s) = true.
Proof.
  induction s as [|c r IH]; simpl; [reflexivity|].
  rewrite !andb_true_iff. intros [Hc Hr].
  split; [apply isalpha_char_lower; exact Hc | apply IH; exact Hr].
Qed.

(** The lowercased text of an alphabetic token has only alphabetic
    characters, so it is never one of the two sentinels. *)
Lemma isalpha_lower_all_alpha (s : string) :
  Str.isalpha s = true -> Str.all_alpha (Str.lower s) = true.
Proof.
  destruct s as [|c r]; [discriminate|].
  unfold Str.isalpha. apply all_alpha_lower.
Qed.

Lemma decisive_isalpha (c : Token) : decisive c -> Str.isalpha (text c) = true.
Proof.
  intros H. apply decisive_spec in H. apply andb_true_iff in H. tauto.
Qed.

(** C6: in a chunk whose head is a target noun, when the child that ends
    the scan is a possessive modifier, the label is its lowercased text if
    and only if that text is one of my, your, his, her, its, their, our,
    and it is "other_possessive" otherwise; when the scan passes over every
    child, the pair (noun, "no_article") is emitted. *)
Theorem C6_possessive_label_and_no_article :
  forall (target_nouns : list string) (chunk : Span),
    Str.mem (head_noun chunk) target_nouns = true ->
    (forall pre c post,
        children (root chunk) = pre ++ c :: post ->
        (forall x, In x pre -> passed_over x) ->
        decisive c -> dep_ c = "poss" ->
        exists label,
          process_chunk target_nouns chunk = [(head_noun chunk, label)]
          /\ (label = Str.lower (text c)
              <-> In (Str.lower (text c))
                     ["my"; "your"; "his"; "her"; "its"; "their"; "our"])
          /\ (~ In (Str.lower (text c))
                   ["my"; "your"; "his"; "her"; "its"; "their"; "our"]
              -> label = "other_possessive"))
    /\ ((forall x, In x (children (root chunk)) -> passed_over x) ->
        process_chunk target_nouns chunk = [(head_noun chunk, "no_article")]).
Proof.
  intros target_nouns chunk H. split.
  - intros pre c post Hc Hpre Hdec Hposs.
    exists (label_of c). split; [|split].
    + rewrite (process_chunk_target _ _ H), Hc.
      rewrite (scan_children_first pre post c Hpre Hdec). reflexivity.
    + unfold label_of. rewrite Hposs. simpl (String.eqb "poss" "det").
      cbv iota. fold possessives.
      destruct (Str.mem (Str.lower (text c)) possessives) eqn:E.
      * apply mem_In in E. tauto.
      * apply mem_false in E. split; [|tauto].
        intros Heq. exfalso.
        pose proof (isalpha_lower_all_alpha _ (decisive_isalpha c Hdec)) as Ha.
        rewrite <- Heq in Ha. discriminate Ha.
    + intros Hn. unfold label_of. rewrite Hposs.
      simpl (String.eqb "poss" "det"). cbv iota. fold possessives in Hn.
      apply mem_false in Hn. rewrite Hn. reflexivity.
  - intros Hall. rewrite (process_chunk_target _ _ H).
    rewrite (scan_children_none _ Hall). reflexivity.
Qed.

Lemma C6_possessive_label_and_no_article_witness :
  (exists label,
      process_chunk ["dog"] Toy.marys_dog = [("dog", label)]
      /\ (label = "mary"
          <-> In "mary" ["my"; "your"; "his"; "her"; "its"; "their"; "our"])
      /\ (~ In "mary" ["my"; "your"; "his"; "her"; "its"; "their"; "our"]
          -> label = "other_possessive"))
  /\ process_chunk ["dog"] Toy.bare_dog = [("dog", "no_article")].
Proof.
  split.
  - refine (proj1 (C6_possessive_label_and_no_article
                     ["dog"] Toy.marys_dog eq_refl)
              [] (Toy.tok "Mary" "poss")
              [Toy.tok "'s" "case"; Toy.tok "old" "amod"]
              eq_refl _ _ eq_refl).
    + intros x [].
    + split; [discriminate | split; reflexivity].
  - refine (proj2 (C6_possessive_label_and_no_article
                     ["dog"] Toy.bare_dog eq_refl) _).
    intros x [].
Defined.

(** ** The frequency counter *)

Lemma count_line_noun_token (frequencies : Counter) (line : string) :
  count_line frequencies line =
  match noun_token line with
  | Some token => incr token frequencies
  | None => frequencies
  end.
Proof.
  unfold count_line, noun_token, fields.
  destruct (Str.split Str.tab (Str.lower (Str.strip line)))
    as [|token [|tag [|x r]]]; try reflexivity.
  destruct (Str.startswith tag "nn"); reflexivity.
Qed.

Lemma count_lines_noun_tokens (corpus : list string) (c : Counter) :
  fold_left count_line corpus c =
  fold_left (fun acc token => incr token acc) (noun_tokens corpus) c.
Proof.
  revert c. induction corpus as [|line corpus IH]; intros c; [reflexivity|].
  simpl. rewrite fold_left_app, IH, count_line_noun_token.
  destruct (noun_token line); reflexivity.
Qed.

Lemma keys_incr (k : string) (c : Counter) :
  keys (incr k c) = if Str.mem k (keys c) then keys c else keys c ++ [k].
Proof.
  unfold Str.mem.
  induction c as [|[k' v] r IH]; simpl; [reflexivity|].
  destruct (String.eqb k k'); simpl; [reflexivity|].
  rewrite IH. destruct (existsb (String.eqb k) (keys r)); reflexivity.
Qed.

Lemma filter_ext_in_bool {A : Type} (f g : A -> bool) (l : list A) :
  (forall x, In x l -> f x = g x) -> filter f l = filter g l.
Proof.
  induction l as [|x l IH]; intros H; [reflexivity|].
  simpl. rewrite (H x) by (left; reflexivity).
  rewrite IH; [reflexivity|]. intros y Hy. apply H. right. exact Hy.
Qed.

Lemma filter_filter {A : Type} (f g : A -> bool) (l : list A) :
  filter f (filter g l) = filter (fun x => g x && f x) l.
Proof.
  induction l as [|x l IH]; [reflexivity|].
  simpl. destruct (g x); simpl; [destruct (f x)|]; rewrite IH; reflexivity.
Qed.

Lemma filter_all_true {A : Type} (l : list A) :
  filter (fun _ => true) l = l.
Proof. induction l as [|x l IH]; simpl; [|rewrite IH]; reflexivity. Qed.

Lemma mem_app (x : string) (l1 l2 : list string) :
  Str.mem x (l1 ++ l2) = Str.mem x l1 || Str.mem x l2.
Proof. unfold Str.mem. apply existsb_app. Qed.

(** The keys of the counter stand in the order of first encounter. *)
Lemma keys_fold_incr (tokens : list string) (c : Counter) :
  keys (fold_left (fun acc token => incr token acc) tokens c) =
  keys c ++ filter (fun k => negb (Str.mem k (keys c)))
                   (first_occurrences tokens).
Proof.
  revert c. induction tokens as [|t tokens IH]; intros c.
  - simpl. rewrite app_nil_r. reflexivity.
  - simpl fold_left. rewrite IH, keys_incr. simpl first_occurrences.
    simpl filter. destruct (Str.mem t (keys c)) eqn:E; simpl.
    + f_equal. rewrite filter_filter. apply filter_ext_in_bool.
      intros y _. destruct (String.eqb y t) eqn:Ey; [|reflexivity].
      apply String.eqb_eq in Ey. subst y. rewrite E. reflexivity.
    + rewrite <- app_assoc. simpl. do 2 f_equal.
      rewrite filter_filter. apply filter_ext_in_bool.
      intros y _. rewrite mem_app, negb_orb.
      unfold Str.mem at 2. simpl. rewrite orb_false_r.
      apply andb_comm.
Qed.

Lemma keys_count_lines (corpus : list string) :
  keys (count_lines corpus) = first_occurrences (noun_tokens corpus).
Proof.
  unfold count_lines. rewrite count_lines_noun_tokens, keys_fold_incr.
  simpl. apply filter_all_true.
Qed.

Lemma first_occurrences_In (l : list string) (x : string) :
  In x (first_occurrences l) <-> In x l.
Proof.
  induction l as [|y l IH]; simpl; [tauto|].
  rewrite filter_In, IH, negb_true_iff, String.eqb_neq.
  destruct (string_dec y x) as [->|Hne]; [tauto|].
  split; [tauto|]. intros [H|H]; [tauto|]. right. split; congruence.
Qed.

Lemma first_occurrences_NoDup (l : list string) : NoDup (first_occurrences l).
Proof.
  induction l as [|y l IH]; simpl; constructor.
  - rewrite filter_In, String.eqb_refl. intros [_ H]. discriminate H.
  - apply NoDup_filter. exact IH.
Qed.

Lemma keys_remove_non_alpha (c : Counter) :
  keys (remove_non_alpha c) = filter Str.isalpha (keys c).
Proof.
  unfold keys, remove_non_alpha.
  induction c as [|[k v] r IH]; simpl; [reflexivity|].
  destruct (Str.isalpha k); simpl; rewrite IH; reflexivity.
Qed.

Lemma get_incr (t k : string) (c : Counter) :
  get (incr t c) k = if String.eqb k t then S (get c k) else get c k.
Proof.
  induction c as [|[k' v] c IH]; simpl.
  - destruct (String.eqb k t); reflexivity.
  - destruct (String.eqb t k') eqn:E; simpl.
    + apply String.eqb_eq in E. subst k'.
      destruct (String.eqb k t); reflexivity.
    + rewrite IH. destruct (String.eqb k k') eqn:E'; [|reflexivity].
      apply String.eqb_eq in E'. subst k'.
      rewrite String.eqb_sym, E. reflexivity.
Qed.

(** The count of a noun is the number of the lines that contribute it. *)
Lemma get_count_lines (corpus : list string) (k : string) :
  get (count_lines corpus) k = count_occ string_dec (noun_tokens corpus) k.
Proof.
  unfold count_lines. rewrite count_lines_noun_tokens.
  assert (H : forall tokens c,
             get (fold_left (fun acc token => incr token acc) tokens c) k
             = get c k + count_occ string_dec tokens k).
  { induction tokens as [|t tokens IH]; intros c; simpl; [lia|].
    rewrite IH, get_incr. destruct (string_dec t k) as [->|Hne].
    - rewrite String.eqb_refl. lia.
    - destruct (String.eqb k t) eqn:E; [|reflexivity].
      apply String.eqb_eq in E. congruence. }
  rewrite H. reflexivity.
Qed.

Lemma In_get (c : Counter) (e : string * nat) :
  NoDup (keys c) -> In e c -> get c (fst e) = snd e.
Proof.
  unfold keys. induction c as [|[k v] c IH]; intros Hnd Hin; [destruct Hin|].
  simpl in *. inversion Hnd as [|? ? Hk Hnd']; subst.
  destruct Hin as [<-|Hin]; [simpl; rewrite String.eqb_refl; reflexivity|].
  destruct (String.eqb (fst e) k) eqn:E; [|apply IH; assumption].
  apply String.eqb_eq in E. exfalso. apply Hk. rewrite <- E.
  apply in_map. exact Hin.
Qed.

Lemma get_remove_non_alpha (c : Counter) (k : string) :
  Str.isalpha k = true -> get (remove_non_alpha c) k = get c k.
Proof.
  intros Hk. unfold remove_non_alpha.
  induction c as [|[k' v] c IH]; simpl; [reflexivity|].
  destruct (Str.isalpha k') eqn:E; simpl.
  - rewrite IH. reflexivity.
  - rewrite IH. destruct (String.eqb k k') eqn:E'; [|reflexivity].
    apply String.eqb_eq in E'. congruence.
Qed.

(** *** The stable descending sort *)

Lemma insert_desc_perm (x : string * nat) (l : Counter) :
  Permutation (insert_desc x l) (x :: l).
Proof.
  induction l as [|y r IH]; simpl; [reflexivity|].
  destruct (snd y <=? snd x); [reflexivity|].
  rewrite IH. apply perm_swap.
Qed.

Lemma sorted_desc_perm (c : Counter) : Permutation (sorted_desc c) c.
Proof.
  induction c as [|x c IH]; simpl; [reflexivity|].
  rewrite insert_desc_perm. constructor. exact IH.
Qed.

Lemma insert_desc_sorted (x : string * nat) (l : Counter) :
  StronglySorted ge_count l -> StronglySorted ge_count (insert_desc x l).
Proof.
  induction l as [|y r IH]; intros Hs; simpl.
  - constructor; constructor.
  - inversion Hs as [|? ? Hr Hy]; subst.
    destruct (snd y <=? snd x) eqn:E.
    + apply Nat.leb_le in E. constructor; [exact Hs|].
      constructor; [exact E|].
      revert Hy. apply Forall_impl. unfold ge_count. intros; lia.
    + apply Nat.leb_gt in E. constructor; [apply IH; exact Hr|].
      apply (Permutation_Forall (Permutation_sym (insert_desc_perm x r))).
      constructor; [unfold ge_count; lia | exact Hy].
Qed.

Lemma sorted_desc_sorted (c : Counter) : StronglySorted ge_count (sorted_desc c).
Proof.
  induction c as [|x c IH]; simpl; [constructor|].
  apply insert_desc_sorted. exact IH.
Qed.

(** Among the entries of one count the insertion goes in front, so the
    sort keeps them in their order. *)
Lemma insert_desc_with_count (v : nat) (x : string * nat) (l : Counter) :
  with_count v (insert_desc x l) = with_count v (x :: l).
Proof.
  unfold with_count.
  induction l as [|y r IH]; simpl; [reflexivity|].
  destruct (snd y <=? snd x) eqn:E; [reflexivity|].
  apply Nat.leb_gt in E. simpl. simpl in IH. rewrite IH.
  destruct (snd x =? v) eqn:Ex; [|reflexivity].
  apply Nat.eqb_eq in Ex.
  destruct (snd y =? v) eqn:Ey; [|reflexivity].
  apply Nat.eqb_eq in Ey. lia.
Qed.

Lemma sorted_desc_stable (v : nat) (c : Counter) :
  with_count v (sorted_desc c) = with_count v c.
Proof.
  induction c as [|x c IH]; [reflexivity|].
  simpl sorted_desc. rewrite insert_desc_with_count.
  unfold with_count in *. simpl. rewrite IH. reflexivity.
Qed.

Lemma sorted_desc_length (c : Counter) :
  List.length (sorted_desc c) = List.length c.
Proof. apply Permutation_length, sorted_desc_perm. Qed.

(** C7: the table without top-N has one entry for each distinct alphabetic
    noun, in the order in which the scan first met the nouns, with the
    number of the noun's lines as its frequency. For a positive top-N value
    K, the counter returns min(K, number of distinct nouns) entries; they
    are the first entries of a listing of the whole table that is in
    descending order of frequency and that keeps entries of equal frequency
    in the order of the table. *)
Theorem C7_top_n_stable_selection :
  forall (corpus : list string) (K : Z),
    (0 < K)%Z ->
    let table := most_frequent_nouns corpus None in
    let top := most_frequent_nouns corpus (Some K) in
    NoDup (keys table)
    /\ keys table
       = filter Str.isalpha (first_occurrences (noun_tokens corpus))
    /\ (forall e, In e table ->
                  snd e = count_occ string_dec (noun_tokens corpus) (fst e))
    /\ List.length top = Nat.min (Z.to_nat K) (List.length table)
    /\ exists rest,
        Permutation (top ++ rest) table
        /\ StronglySorted ge_count (top ++ rest)
        /\ forall v, with_count v (top ++ rest) = with_count v table.
Proof.
  intros corpus K HK table top.
  assert (Hkeys : keys table
                  = filter Str.isalpha
                      (first_occurrences (noun_tokens corpus))).
  { unfold table, most_frequent_nouns.
    rewrite keys_remove_non_alpha, keys_count_lines. reflexivity. }
  assert (Htop : top = firstn (Z.to_nat K) (sorted_desc table)).
  { unfold top, table, most_frequent_nouns, most_common.
    destruct (K =? 0)%Z eqn:E; [apply Z.eqb_eq in E; lia | reflexivity]. }
  assert (Hnd : NoDup (keys table))
    by (rewrite Hkeys; apply NoDup_filter, first_occurrences_NoDup).
  split; [exact Hnd|]. split; [exact Hkeys|]. split; [|split].
  - intros e He. rewrite <- (In_get table e Hnd He).
    unfold table, most_frequent_nouns.
    rewrite get_remove_non_alpha, get_count_lines; [reflexivity|].
    apply (in_map fst) in He. fold (keys table) in He.
    rewrite Hkeys in He. apply filter_In in He. tauto.
  - rewrite Htop, length_firstn, sorted_desc_length. reflexivity.
  - exists (skipn (Z.to_nat K) (sorted_desc table)).
    rewrite Htop, firstn_skipn.
    split; [apply sorted_desc_perm|].
    split; [apply sorted_desc_sorted|].
    intros v. apply sorted_desc_stable.
Qed.

Lemma C7_top_n_stable_selection_witness :
  most_frequent_nouns Toy.tie_corpus None
  = [("cat", 2); ("dog", 2); ("emu", 1)]
  /\ most_frequent_nouns Toy.tie_corpus (Some 1%Z) = [("cat", 2)]
  /\ List.length (most_frequent_nouns Toy.tie_corpus (Some 5%Z))
     = Nat.min 5 (List.length (most_frequent_nouns Toy.tie_corpus None))
  /\ NoDup (keys (most_frequent_nouns Toy.tie_corpus None)).
Proof.
  split; [reflexivity|]. split; [reflexivity|].
  pose proof (C7_top_n_stable_selection Toy.tie_corpus 5%Z eq_refl) as H.
  cbv zeta in H. destruct H as [Hnd [_ [_ [Hlen _]]]].
  split; [exact Hlen | exact Hnd].
Defined.

(** A pair separated by a space is one field: the line is skipped and its
    noun is not counted, while the same pair separated by a tab is. *)
Lemma C9_space_separated_pair_not_counted :
  fields Toy.space_line = ["dog nn"]
  /\ most_frequent_nouns [Toy.space_line] None = []
  /\ most_frequent_nouns [Str.tsv "dog" "NN"] None = [("dog", 1)].
Proof. repeat split. Qed.

(** C9 as amended: the line, stripped and lowercased, is split at its tab
    characters only; a line that does not give exactly two fields leaves
    the table as it is, a line that gives a token and a tag counts the token
    when the tag starts with "nn"; no line raises; and the four lines of
    scenario 1 give the table with the single entry dog: 1. *)
Theorem C9_tab_delimited_lines_counted :
  (forall (frequencies : Counter) (line : string),
      List.length (Str.split Str.tab (Str.lower (Str.strip line))) <> 2 ->
      count_line frequencies line = frequencies)
  /\ (forall (frequencies : Counter) (line token tag : string),
         Str.split Str.tab (Str.lower (Str.strip line)) = [token; tag] ->
         count_line frequencies line
         = if Str.startswith tag "nn" then incr token frequencies
           else frequencies)
  /\ most_frequent_nouns Toy.scenario_1 None = [("dog", 1)].
Proof.
  split; [|split].
  - intros frequencies line H. unfold count_line.
    destruct (Str.split Str.tab (Str.lower (Str.strip line)))
      as [|token [|tag [|x r]]]; try reflexivity.
    simpl in H. congruence.
  - intros frequencies line token tag H. unfold count_line. rewrite H.
    reflexivity.
  - reflexivity.
Qed.

Lemma C9_tab_delimited_lines_counted_witness :
  count_line [("cat", 1)] Toy.space_line = [("cat", 1)]
  /\ count_line [("cat", 1)] (Str.tsv "Dog" "NNS") = [("cat", 1); ("dog", 1)].
Proof.
  split.
  - apply (proj1 C9_tab_delimited_lines_counted). vm_compute. lia.
  - exact (proj1 (proj2 C9_tab_delimited_lines_counted)
             [("cat", 1)] (Str.tsv "Dog" "NNS") "dog" "nns" eq_refl).
Defined.

(** ** The aggregation loop *)

Lemma foldM_app {A S : Type} (body : S -> A -> result S) (xs ys : list A)
  (s : S) :
  foldM body (xs ++ ys) s = (s' <- foldM body xs s ;; foldM body ys s').
Proof.
  revert s. induction xs as [|x xs IH]; intros s; [reflexivity|].
  simpl. destruct (body s x) as [s1|e]; simpl; [apply IH | reflexivity].
Qed.

(** When every sentence parses, the nested loops of [main] record the
    observations one after the other. *)
Lemma loop_observations (nlp : Language) (nouns : Counter)
  (sentences : list string) :
  forall (obs : list (string * string)) (na : list (string * Counter)),
    observations nlp nouns sentences = Ok obs ->
    foldM (fun nouns_articles sentence =>
             o <- process_sentence sentence nouns nlp ;;
             foldM record o nouns_articles) sentences na
    = foldM record obs na.
Proof.
  unfold observations.
  induction sentences as [|s r IH]; intros obs na H; simpl in *.
  - injection H as <-. reflexivity.
  - destruct (process_sentence s nouns nlp) as [o1|e]; simpl in *;
      [|discriminate].
    destruct (mapM (fun sentence => process_sentence sentence nouns nlp) r)
      as [all|e]; simpl in *; [|discriminate].
    injection H as <-. rewrite foldM_app.
    destruct (foldM record o1 na) as [na1|e]; simpl; [|reflexivity].
    apply IH. reflexivity.
Qed.

Lemma count_articles_observations (nlp : Language) (nouns : Counter)
  (sentences : list string) (obs : list (string * string)) :
  observations nlp nouns sentences = Ok obs ->
  count_articles nlp nouns sentences
  = foldM record obs (map (fun e => (fst e, @nil (string * nat))) nouns).
Proof. intros H. unfold count_articles. apply loop_observations. exact H. Qed.

Lemma record_ok (na : list (string * Counter)) (o : string * string) :
  In (fst o) (map fst na) -> exists na', record na o = Ok na'.
Proof.
  induction na as [|r rest IH]; intros H; [destruct H|].
  simpl. destruct (String.eqb (fst o) (fst r)) eqn:E; [eexists; reflexivity|].
  destruct H as [H|H].
  - apply String.eqb_neq in E. congruence.
  - destruct (IH H) as [rest' ->]. eexists. reflexivity.
Qed.

Lemma record_keys (na na' : list (string * Counter)) (o : string * string) :
  record na o = Ok na' -> map fst na' = map fst na.
Proof.
  revert na'. induction na as [|r rest IH]; intros na' H; [discriminate|].
  simpl in H. destruct (String.eqb (fst o) (fst r)).
  - injection H as <-. reflexivity.
  - destruct (record rest o) as [rest'|e]; simpl in H; [|discriminate].
    injection H as <-. simpl. rewrite (IH rest' eq_refl). reflexivity.
Qed.

(** Recording an observation counts it in the row of its noun and leaves
    the other rows alone. *)
Lemma record_row (na na' : list (string * Counter)) (o : string * string) :
  record na o = Ok na' ->
  forall n, row na' n
            = if String.eqb (fst o) n then incr (snd o) (row na n)
              else row na n.
Proof.
  revert na'. induction na as [|r rest IH]; intros na' H n; [discriminate|].
  simpl in H. unfold row in *. destruct (String.eqb (fst o) (fst r)) eqn:E.
  - injection H as <-. apply String.eqb_eq in E. simpl.
    destruct (String.eqb n (fst r)) eqn:En.
    + apply String.eqb_eq in En. subst n. rewrite E, String.eqb_refl.
      reflexivity.
    + rewrite E. rewrite String.eqb_sym, En. reflexivity.
  - destruct (record rest o) as [rest'|e]; simpl in H; [|discriminate].
    injection H as <-. simpl.
    destruct (String.eqb n (fst r)) eqn:En.
    + apply String.eqb_eq in En. subst n. rewrite E. reflexivity.
    + apply (IH rest' eq_refl).
Qed.

Lemma total_incr (k : string) (c : Counter) : total (incr k c) = S (total c).
Proof.
  unfold total. induction c as [|[k' v] r IH]; simpl; [reflexivity|].
  destruct (String.eqb k k'); simpl; [reflexivity|].
  rewrite IH. lia.
Qed.

Lemma In_keys_incr (k l : string) (c : Counter) :
  In l (keys (incr k c)) -> l = k \/ In l (keys c).
Proof.
  rewrite keys_incr. destruct (Str.mem k (keys c)); [tauto|].
  rewrite in_app_iff. simpl. intuition.
Qed.

(** The loop over observations of target nouns does not raise, keeps the
    rows, gives a row only labels that were observed for its noun, and adds
    to the total of a row the number of observations of its noun. *)
Lemma foldM_record_spec (obs : list (string * string)) :
  forall na : list (string * Counter),
    (forall o, In o obs -> In (fst o) (map fst na)) ->
    exists na',
      foldM record obs na = Ok na'
      /\ map fst na' = map fst na
      /\ (forall n l, In l (keys (row na' n)) ->
                      In l (keys (row na n)) \/ In (n, l) obs)
      /\ (forall n, total (row na' n) = total (row na n) + occurrences n obs).
Proof.
  induction obs as [|o obs IH]; intros na H.
  - exists na. simpl. repeat split; auto.
  - destruct (record_ok na o) as [na1 H1]; [apply H; left; reflexivity|].
    pose proof (record_keys na na1 o H1) as Hk.
    pose proof (record_row na na1 o H1) as Hr.
    destruct (IH na1) as [na' [Hf [Hk' [Hl Ht]]]].
    { intros o' Ho'. rewrite Hk. apply H. right. exact Ho'. }
    exists na'. simpl. rewrite H1. simpl.
    split; [exact Hf|]. split; [congruence|]. split.
    + intros n l Hin. destruct (Hl n l Hin) as [Hin1|Hin1]; [|tauto].
      rewrite Hr in Hin1. destruct (String.eqb (fst o) n) eqn:E; [|tauto].
      apply String.eqb_eq in E. apply In_keys_incr in Hin1.
      destruct Hin1 as [->|Hin1]; [|tauto].
      right. left. subst n. destruct o; reflexivity.
    + intros n. rewrite Ht, Hr. unfold occurrences. simpl.
      destruct (String.eqb (fst o) n); simpl; [rewrite total_incr|]; lia.
Qed.

Lemma row_initial (nouns : Counter) (n : string) :
  row (map (fun e => (fst e, @nil (string * nat))) nouns) n = [].
Proof.
  unfold row. induction nouns as [|e r IH]; simpl; [reflexivity|].
  destruct (String.eqb n (fst e)); [reflexivity | exact IH].
Qed.

Lemma In_row (na : list (string * Counter)) (r : string * Counter) :
  NoDup (map fst na) -> In r na -> row na (fst r) = snd r.
Proof.
  unfold row. induction na as [|x na IH]; intros Hnd Hin; [destruct Hin|].
  simpl in *. inversion Hnd as [|? ? Hx Hnd']; subst.
  destruct Hin as [->|Hin]; [rewrite String.eqb_refl; reflexivity|].
  destruct (String.eqb (fst r) (fst x)) eqn:E; [|apply IH; assumption].
  apply String.eqb_eq in E. exfalso. apply Hx. rewrite <- E.
  apply in_map. exact Hin.
Qed.

(** *** What the classifier yields *)

Lemma scan_children_label (cs : list Token) (a : string) :
  scan_children cs = Some a ->
  Str.all_alpha a = true \/ a = "other_possessive".
Proof.
  induction cs as [|x cs IH]; simpl; [discriminate|].
  destruct (Str.isalpha (text x)) eqn:E; simpl; [|exact IH].
  pose proof (isalpha_lower_all_alpha _ E) as Ha.
  destruct (String.eqb (dep_ x) "det").
  - intros H. injection H as <-. left. exact Ha.
  - destruct (String.eqb (dep_ x) "poss"); [|exact IH].
    destruct (Str.mem (Str.lower (text x)) possessives); simpl;
      intros H; injection H as <-; [left; exact Ha | right; reflexivity].
Qed.

(** A pair comes from a chunk whose head is a target noun, and its label is
    "no_article" only when the scan ran to its end. *)
Lemma process_chunk_In (target_nouns : list string) (chunk : Span)
  (o : string * string) :
  In o (process_chunk target_nouns chunk) ->
  Str.mem (head_noun chunk) target_nouns = true
  /\ fst o = head_noun chunk
  /\ (snd o = "no_article" -> scan_children (children (root chunk)) = None).
Proof.
  unfold process_chunk. fold (head_noun chunk).
  destruct (Str.mem (head_noun chunk) target_nouns); simpl; [|tauto].
  destruct (scan_children (children (root chunk))) as [a|] eqn:E.
  - intros [<-|[]]. simpl. repeat split. intros ->.
    apply scan_children_label in E. destruct E as [E|E]; discriminate E.
  - intros [<-|[]]. simpl. repeat split.
Qed.

Lemma observations_ok (nlp : Language) (nouns : Counter)
  (sentences : list string) :
  (forall s, In s sentences -> exists d, nlp s = Ok d) ->
  exists obs,
    observations nlp nouns sentences = Ok obs
    /\ forall o, In o obs ->
                 exists s d chunk,
                   In s sentences /\ nlp s = Ok d
                   /\ In chunk (noun_chunks d)
                   /\ In o (process_chunk (keys nouns) chunk).
Proof.
  unfold observations.
  induction sentences as [|s r IH]; intros H.
  - exists []. split; [reflexivity | intros o []].
  - destruct (H s (or_introl eq_refl)) as [d Hd].
    destruct IH as [obs [Ho Hin]]; [intros x Hx; apply H; right; exact Hx|].
    simpl. unfold process_sentence at 1. rewrite Hd. simpl.
    destruct (mapM (fun sentence => process_sentence sentence nouns nlp) r)
      as [all|e]; simpl in *; [|discriminate].
    injection Ho as <-. eexists. split; [reflexivity|].
    intros o Hino. apply in_app_iff in Hino. destruct Hino as [Hino|Hino].
    + apply in_flat_map in Hino. destruct Hino as [ch [Hch Hoch]].
      exists s, d, ch. auto.
    + destruct (Hin o Hino) as [s' [d' [ch [Hs' H']]]].
      exists s', d', ch. split; [right; exact Hs' | exact H'].
Qed.

Lemma observations_targets (nlp : Language) (nouns : Counter)
  (sentences : list string) (obs : list (string * string)) :
  observations nlp nouns sentences = Ok obs ->
  forall o, In o obs -> In (fst o) (keys nouns).
Proof.
  unfold observations. revert obs.
  induction sentences as [|s r IH]; intros obs H o Ho; simpl in H.
  - injection H as <-. destruct Ho.
  - unfold process_sentence at 1 in H.
    destruct (nlp s) as [d|e]; simpl in H; [|discriminate].
    destruct (mapM (fun sentence => process_sentence sentence nouns nlp) r)
      as [all|e]; simpl in H; [|discriminate].
    injection H as <-. apply in_app_iff in Ho. destruct Ho as [Ho|Ho].
    + apply in_flat_map in Ho. destruct Ho as [ch [_ Ho]].
      apply process_chunk_In in Ho. destruct Ho as [Hm [-> _]].
      apply mem_In. exact Hm.
    + apply (IH (List.concat all) eq_refl o Ho).
Qed.

Lemma keys_initial (nouns : Counter) :
  map fst (map (fun e => (fst e, @nil (string * nat))) nouns) = keys nouns.
Proof. unfold keys. rewrite map_map. reflexivity. Qed.

(** When every sentence parses, the loop ends with a row for each target
    noun; a row has only labels observed for its noun, and its total is the
    number of observations of its noun. *)
Lemma count_articles_spec (nlp : Language) (nouns : Counter)
  (sentences : list string) :
  (forall s, In s sentences -> exists d, nlp s = Ok d) ->
  exists obs na,
    observations nlp nouns sentences = Ok obs
    /\ count_articles nlp nouns sentences = Ok na
    /\ map fst na = keys nouns
    /\ (forall n l, In l (keys (row na n)) -> In (n, l) obs)
    /\ (forall n, total (row na n) = occurrences n obs).
Proof.
  intros H. destruct (observations_ok nlp nouns sentences H) as [obs [Ho _]].
  destruct (foldM_record_spec obs
              (map (fun e => (fst e, @nil (string * nat))) nouns))
    as [na [Hf [Hk [Hl Ht]]]].
  { intros o Hin. rewrite keys_initial.
    apply (observations_targets nlp nouns sentences obs Ho o Hin). }
  exists obs, na. split; [exact Ho|].
  split; [rewrite (count_articles_observations nlp nouns sentences obs Ho);
          exact Hf|].
  split; [rewrite Hk; apply keys_initial|]. split.
  - intros n l Hin. destruct (Hl n l Hin) as [Hin'|Hin']; [|exact Hin'].
    rewrite row_initial in Hin'. destruct Hin'.
  - intros n. rewrite Ht, row_initial. reflexivity.
Qed.

(** ** Frames *)

Lemma rows_of_fst {A : Type} (idx : list string) (cs : list (list A)) :
  map fst (rows_of idx cs) = idx.
Proof.
  revert cs. induction idx as [|r idx IH]; intros cs; [reflexivity|].
  simpl. rewrite IH. reflexivity.
Qed.

Lemma columns_to_frame (na : list (string * Counter)) :
  columns (to_frame na) = union_indexes (map (fun e => keys (snd e)) na).
Proof.
  unfold to_frame, fillna, T, DataFrame_of_dict, columns. simpl.
  rewrite map_map. simpl. apply rows_of_fst.
Qed.

Lemma index_to_frame (na : list (string * Counter)) :
  index (to_frame na) = map fst na.
Proof.
  unfold to_frame, fillna, T, DataFrame_of_dict, columns. simpl.
  rewrite map_map. reflexivity.
Qed.

Lemma In_add_new (l : string) (ks seen : list string) :
  In l (add_new seen ks) <-> In l seen \/ In l ks.
Proof.
  revert seen. induction ks as [|k r IH]; intros seen; simpl; [tauto|].
  rewrite IH. destruct (Str.mem k seen) eqn:E.
  - apply mem_In in E. split; [tauto|].
    intros [H|[H|H]]; [tauto | subst; tauto | tauto].
  - rewrite in_app_iff. simpl. tauto.
Qed.

Lemma In_fold_add_new (l : string) (kss : list (list string))
  (seen : list string) :
  In l (fold_left add_new kss seen)
  <-> In l seen \/ exists ks, In ks kss /\ In l ks.
Proof.
  revert seen. induction kss as [|ks kss IH]; intros seen; simpl.
  - split; [tauto | intros [H|[ks [[] _]]]; exact H].
  - rewrite IH, In_add_new. split.
    + intros [[H|H]|[ks' [H1 H2]]]; [tauto | right; exists ks; tauto |].
      right. exists ks'. tauto.
    + intros [H|[ks' [[->|H1] H2]]]; [tauto | tauto |].
      right. exists ks'. tauto.
Qed.

Lemma In_union_indexes (l : string) (kss : list (list string)) :
  In l (union_indexes kss) <-> exists ks, In ks kss /\ In l ks.
Proof.
  unfold union_indexes. rewrite In_fold_add_new. simpl. tauto.
Qed.

(** The columns of the table are the labels of the counters. *)
Lemma In_columns_to_frame (na : list (string * Counter)) (l : string) :
  In l (columns (to_frame na)) <-> exists r, In r na /\ In l (keys (snd r)).
Proof.
  rewrite columns_to_frame, In_union_indexes. split.
  - intros [ks [Hks Hl]]. apply in_map_iff in Hks.
    destruct Hks as [r [<- Hr]]. exists r. tauto.
  - intros [r [Hr Hl]]. exists (keys (snd r)). split; [|exact Hl].
    apply in_map_iff. exists r. tauto.
Qed.

Lemma find_col_missing {A : Type} (label : string)
  (cs : list (string * list A)) :
  ~ In label (map fst cs) -> find_col label cs = Raise (KeyError label).
Proof.
  induction cs as [|c r IH]; intros H; [reflexivity|].
  simpl in *. destruct (String.eqb label (fst c)) eqn:E.
  - apply String.eqb_eq in E. exfalso. apply H. left. congruence.
  - apply IH. tauto.
Qed.

Lemma find_col_present {A : Type} (label : string)
  (cs : list (string * list A)) :
  In label (map fst cs) ->
  exists c, find_col label cs = Ok c /\ In (label, c) cs.
Proof.
  induction cs as [|[k v] r IH]; intros H; [destruct H|].
  simpl in *. destruct (String.eqb label k) eqn:E.
  - apply String.eqb_eq in E. subst. exists v. tauto.
  - destruct H as [H|H]; [apply String.eqb_neq in E; congruence|].
    destruct (IH H) as [c [Hc Hin]]. exists c. tauto.
Qed.

(** The merge raises as soon as the frame has no "no_article" column. *)
Lemma merge_hapaxes_missing (df : DataFrame nat) :
  ~ In "no_article" (columns df) ->
  merge_hapaxes df = Raise (KeyError "no_article").
Proof.
  intros H. unfold merge_hapaxes, getitem.
  rewrite (find_col_missing "no_article" (cols df) H). reflexivity.
Qed.

Lemma NoDup_firstn {A : Type} (n : nat) (l : list A) :
  NoDup l -> NoDup (firstn n l).
Proof.
  intros H. rewrite <- (firstn_skipn n l) in H.
  apply NoDup_app_remove_r in H. exact H.
Qed.

Lemma most_frequent_nouns_NoDup (corpus : list string) (top_n : option Z) :
  NoDup (keys (most_frequent_nouns corpus top_n)).
Proof.
  assert (H : NoDup (keys (remove_non_alpha (count_lines corpus)))).
  { rewrite keys_remove_non_alpha, keys_count_lines.
    apply NoDup_filter, first_occurrences_NoDup. }
  unfold most_frequent_nouns. destruct top_n as [n|]; [|exact H].
  destruct (n =? 0)%Z; [exact H|].
  unfold most_common, keys. rewrite <- firstn_map. apply NoDup_firstn.
  apply (Permutation_NoDup
           (Permutation_map fst
              (Permutation_sym
                 (sorted_desc_perm (remove_non_alpha (count_lines corpus)))))).
  exact H.
Qed.

Lemma decisive_or_passed_over (x : Token) : decisive x \/ passed_over x.
Proof.
  rewrite decisive_spec, passed_over_spec.
  destruct (Str.isalpha (text x) && article_dep x); tauto.
Qed.

(** The scan finds an article exactly when some child is decisive. *)
Lemma scan_children_some (cs : list Token) :
  (exists c, In c cs /\ decisive c) -> scan_children cs <> None.
Proof.
  induction cs as [|x cs IH]; intros [c [Hin Hc]]; [destruct Hin|].
  destruct (decisive_or_passed_over x) as [Hx|Hx].
  - rewrite (scan_children_step_decisive x cs Hx). discriminate.
  - rewrite (scan_children_step_passed x cs Hx). apply IH.
    destruct Hin as [->|Hin].
    + exfalso. apply decisive_spec in Hc. apply passed_over_spec in Hx.
      congruence.
    + exists c. tauto.
Qed.

(** Without an observation labelled "no_article" the table has no such
    column and [main] raises KeyError. *)
Lemma main_without_no_article (nlp : Language) (top_n : option Z)
  (tagged sentences : list string) :
  (forall s, In s (generate_sentences sentences) -> exists d, nlp s = Ok d) ->
  (forall s d chunk,
      In s (generate_sentences sentences) -> nlp s = Ok d ->
      In chunk (noun_chunks d) ->
      Str.mem (head_noun chunk) (keys (most_frequent_nouns tagged top_n)) = true ->
      scan_children (children (root chunk)) <> None) ->
  main_with top_n nlp tagged sentences = Raise (KeyError "no_article").
Proof.
  intros Hparse Hart. unfold main_with.
  set (nouns := most_frequent_nouns tagged top_n) in *.
  destruct (count_articles_spec nlp nouns (generate_sentences sentences) Hparse)
    as [obs [na [Ho [Hc [Hk [Hl _]]]]]].
  rewrite Hc. simpl. apply merge_hapaxes_missing.
  rewrite In_columns_to_frame. intros [r [Hr Hin]].
  assert (Hnd : NoDup (map fst na)).
  { rewrite Hk. apply most_frequent_nouns_NoDup. }
  rewrite <- (In_row na r Hnd Hr) in Hin.
  apply Hl in Hin.
  destruct (observations_ok nlp nouns (generate_sentences sentences) Hparse)
    as [obs' [Ho' Hfrom]].
  rewrite Ho in Ho'. injection Ho' as <-.
  destruct (Hfrom _ Hin) as [s [d [ch [Hs [Hd [Hch Hpc]]]]]].
  apply process_chunk_In in Hpc. destruct Hpc as [Hm [_ Hnone]].
  apply (Hart s d ch Hs Hd Hch Hm). apply Hnone. reflexivity.
Qed.

(** C10: when the set of target nouns is not empty, every sentence parses
    and every chunk headed by a target noun has a child that is alphabetic
    and bears a determiner or a possessive relation, no observation is
    labelled "no_article", the table has no such column, and [main] raises
    KeyError "no_article" in the merge instead of giving a table. *)
Theorem C10_merge_raises_without_no_article_column :
  forall (nlp : Language) (top_n : option Z) (tagged sentences : list string),
    most_frequent_nouns tagged top_n <> [] ->
    (forall s, In s (generate_sentences sentences) -> exists d, nlp s = Ok d) ->
    (forall s d chunk,
        In s (generate_sentences sentences) -> nlp s = Ok d ->
        In chunk (noun_chunks d) ->
        In (head_noun chunk) (keys (most_frequent_nouns tagged top_n)) ->
        exists c, In c (children (root chunk)) /\ decisive c) ->
    main_with top_n nlp tagged sentences = Raise (KeyError "no_article").
Proof.
  intros nlp top_n tagged sentences _ Hparse Hart.
  apply main_without_no_article; [exact Hparse|].
  intros s d ch Hs Hd Hch Hm. apply scan_children_some.
  apply (Hart s d ch Hs Hd Hch). apply mem_In. exact Hm.
Qed.

Lemma C10_merge_raises_without_no_article_column_witness :
  most_frequent_nouns Toy.dog_corpus (Some 1000%Z) <> []
  /\ main Toy.nlp Toy.dog_corpus Toy.no_bare_dog
     = Raise (KeyError "no_article").
Proof.
  assert (Hne : most_frequent_nouns Toy.dog_corpus (Some 1000%Z) <> [])
    by (vm_compute; discriminate).
  split; [exact Hne|].
  apply (C10_merge_raises_without_no_article_column
           Toy.nlp (Some 1000%Z) Toy.dog_corpus Toy.no_bare_dog Hne).
  - intros s Hs. vm_compute in Hs.
    destruct Hs as [<-|[<-|[<-|[]]]]; eexists; vm_compute; reflexivity.
  - intros s d chunk Hs Hd Hch _. vm_compute in Hs.
    destruct Hs as [<-|[<-|[<-|[]]]]; vm_compute in Hd;
      injection Hd as <-; destruct Hch as [<-|[]];
      eexists; (split; [left; reflexivity|]);
      (split; [discriminate | split; reflexivity]).
Defined.

(** ** Parser failures *)

(** A sentence the parser rejects ends the run: with it the run raises,
    without it the same corpus gives a table. *)
Lemma C8_malformed_sentence_aborts_run :
  main Toy.nlp Toy.dog_corpus (Toy.line "<<<" :: Toy.two_bare_dogs)
  = Raise (ParserError "malformed")
  /\ main Toy.nlp Toy.dog_corpus Toy.two_bare_dogs
     = Ok (mkFrame ["dog"] [("no_article", [2]); ("the", [2])]).
Proof. split; vm_compute; reflexivity. Qed.

(** C8 as amended: there is no recovery for a single sentence. When the
    parser raises on a sentence that reaches the classifier, and parsed the
    sentences before it, [process_sentence] raises that exception for the
    sentence and [main] raises it too: no table is produced and the rest of
    the corpus is not read. *)
Theorem C8_parser_exception_propagates :
  forall (nlp : Language) (top_n : option Z) (tagged sentences : list string)
         (pre post : list string) (s : string) (e : exn),
    generate_sentences sentences = pre ++ s :: post ->
    (forall x, In x pre -> exists d, nlp x = Ok d) ->
    nlp s = Raise e ->
    process_sentence s (most_frequent_nouns tagged top_n) nlp = Raise e
    /\ main_with top_n nlp tagged sentences = Raise e.
Proof.
  intros nlp top_n tagged sentences pre post s e Hsplit Hpre Hs.
  assert (Hp : process_sentence s (most_frequent_nouns tagged top_n) nlp
               = Raise e).
  { unfold process_sentence. rewrite Hs. reflexivity. }
  split; [exact Hp|].
  unfold main_with. set (nouns := most_frequent_nouns tagged top_n) in *.
  destruct (count_articles_spec nlp nouns pre Hpre)
    as [obs [na [_ [Hc _]]]].
  unfold count_articles in *. rewrite Hsplit, foldM_app, Hc. simpl.
  rewrite Hp. reflexivity.
Qed.

Lemma C8_parser_exception_propagates_witness :
  process_sentence (Toy.line "<<<")
    (most_frequent_nouns Toy.dog_corpus (Some 1000%Z)) Toy.nlp
  = Raise (ParserError "malformed")
  /\ main Toy.nlp Toy.dog_corpus
       [Toy.line "Dog barked."; Toy.line "<<<"; Toy.line "The dog barked."]
     = Raise (ParserError "malformed").
Proof.
  apply (C8_parser_exception_propagates
           Toy.nlp (Some 1000%Z) Toy.dog_corpus
           [Toy.line "Dog barked."; Toy.line "<<<"; Toy.line "The dog barked."]
           [Toy.line "Dog barked."] [Toy.line "The dog barked."]
           (Toy.line "<<<") (ParserError "malformed")).
  - vm_compute. reflexivity.
  - intros x [<-|[]]. eexists. vm_compute. reflexivity.
  - vm_compute. reflexivity.
Defined.

(** ** The two phases of [main] *)

Lemma main_with_merge (top_n : option Z) (nlp : Language)
  (tagged sentences : list string) :
  main_with top_n nlp tagged sentences
  = (df <- table_before_merge top_n nlp tagged sentences ;; merge_hapaxes df).
Proof.
  unfold main_with, table_before_merge.
  destruct (count_articles nlp (most_frequent_nouns tagged top_n)
              (generate_sentences sentences)); reflexivity.
Qed.

(** ** The hapax merge on well-formed frames *)

Lemma vadd_comm (u v : list nat) : vadd u v = vadd v u.
Proof.
  revert v. induction u as [|x u IH]; intros [|y v]; simpl; try reflexivity.
  rewrite IH, Nat.add_comm. reflexivity.
Qed.

Lemma vadd_assoc (u v w : list nat) : vadd u (vadd v w) = vadd (vadd u v) w.
Proof.
  revert v w. induction u as [|x u IH]; intros [|y v] [|z w]; simpl;
    try reflexivity.
  rewrite IH, Nat.add_assoc. reflexivity.
Qed.

Lemma vadd_zeros (u : list nat) :
  vadd u (repeat 0 (List.length u)) = u.
Proof.
  induction u as [|x u IH]; simpl; [reflexivity|].
  rewrite IH, Nat.add_0_r. reflexivity.
Qed.

Lemma vadd_length (u v : list nat) :
  List.length u = List.length v -> List.length (vadd u v) = List.length u.
Proof.
  revert v. induction u as [|x u IH]; intros [|y v] H; simpl in *;
    try reflexivity; try discriminate.
  rewrite IH; [reflexivity | lia].
Qed.

Lemma list_sum_vadd (u v : list nat) :
  List.length u = List.length v ->
  list_sum (vadd u v) = list_sum u + list_sum v.
Proof.
  revert v. induction u as [|x u IH]; intros [|y v] H; simpl in *;
    try reflexivity; try discriminate.
  rewrite IH; lia.
Qed.

Lemma vsum_length (n : nat) (vs : list (list nat)) :
  Forall (fun v => List.length v = n) vs -> List.length (vsum n vs) = n.
Proof.
  unfold vsum. induction 1 as [|v vs Hv _ IH]; simpl.
  - apply repeat_length.
  - rewrite vadd_length; congruence.
Qed.

Lemma list_sum_repeat_0 (n : nat) : list_sum (repeat 0 n) = 0.
Proof. induction n; simpl; auto. Qed.

Lemma list_sum_vsum (n : nat) (vs : list (list nat)) :
  Forall (fun v => List.length v = n) vs ->
  list_sum (vsum n vs) = list_sum (map (@list_sum) vs).
Proof.
  intros H. induction H as [|v vs Hv Hvs IH]; simpl.
  - apply list_sum_repeat_0.
  - rewrite list_sum_vadd, IH; [reflexivity|].
    rewrite (vsum_length n vs Hvs). exact Hv.
Qed.

(** The row totals split over any two-way partition of the columns. *)
Lemma vsum_partition (n : nat) (p : string * list nat -> bool)
  (cs : list (string * list nat)) :
  vsum n (map snd cs)
  = vadd (vsum n (map snd (filter p cs)))
         (vsum n (map snd (filter (fun c => negb (p c)) cs))).
Proof.
  unfold vsum. induction cs as [|c cs IH]; simpl.
  - rewrite <- (repeat_length 0 n) at 3. symmetry. apply vadd_zeros.
  - rewrite IH. destruct (p c); simpl.
    + apply vadd_assoc.
    + rewrite !vadd_assoc. f_equal. apply vadd_comm.
Qed.

Lemma sum1_vsum (df : DataFrame nat) :
  sum1 df = vsum (List.length (index df)) (map snd (cols df)).
Proof. reflexivity. Qed.

Lemma hapaxes_of_cols (df : DataFrame nat) :
  hapaxes_of df = map fst (filter hapax (cols df)).
Proof.
  unfold hapaxes_of, sum0, hapax.
  induction (cols df) as [|c cs IH]; simpl; [reflexivity|].
  destruct (list_sum (snd c) =? 1); simpl; rewrite IH; reflexivity.
Qed.

Lemma find_col_NoDup {A : Type} (cs : list (string * list A))
  (c : string * list A) :
  NoDup (map fst cs) -> In c cs -> find_col (fst c) cs = Ok (snd c).
Proof.
  induction cs as [|x cs IH]; intros Hnd Hin; [destruct Hin|].
  simpl in *. inversion Hnd as [|? ? Hx Hnd']; subst.
  destruct Hin as [->|Hin]; [rewrite String.eqb_refl; reflexivity|].
  destruct (String.eqb (fst c) (fst x)) eqn:E; [|apply IH; assumption].
  apply String.eqb_eq in E. exfalso. apply Hx. rewrite <- E.
  apply in_map. exact Hin.
Qed.

Lemma find_cols_sub {A : Type} (cs sub : list (string * list A)) :
  NoDup (map fst cs) -> incl sub cs ->
  find_cols (map fst sub) cs = Ok sub.
Proof.
  intros Hnd. induction sub as [|c sub IH]; intros Hincl; [reflexivity|].
  simpl. rewrite (find_col_NoDup cs c Hnd) by (apply Hincl; left; reflexivity).
  simpl. rewrite IH by (intros x Hx; apply Hincl; right; exact Hx).
  simpl. destruct c; reflexivity.
Qed.

Lemma set_col_labels {A : Type} (l : string) (s : list A)
  (cs : list (string * list A)) :
  In l (map fst cs) -> map fst (set_col l s cs) = map fst cs.
Proof.
  induction cs as [|c cs IH]; intros H; [destruct H|].
  simpl in *. destruct (String.eqb l (fst c)) eqn:E; simpl.
  - apply String.eqb_eq in E. congruence.
  - rewrite IH; [reflexivity|]. destruct H as [H|H]; [|exact H].
    apply String.eqb_neq in E. congruence.
Qed.

Lemma set_col_same {A : Type} (l : string) (s : list A)
  (cs : list (string * list A)) :
  find_col l cs = Ok s -> set_col l s cs = cs.
Proof.
  induction cs as [|c cs IH]; intros H; [discriminate|].
  simpl in *. destruct (String.eqb l (fst c)) eqn:E.
  - apply String.eqb_eq in E. injection H as <-. subst l.
    destruct c; reflexivity.
  - rewrite (IH H). reflexivity.
Qed.

(** A filter on labels commutes with the replacement of a column. *)
Lemma filter_set_col {A : Type} (p : string -> bool) (l : string)
  (s : list A) (cs : list (string * list A)) :
  In l (map fst cs) ->
  filter (fun c => p (fst c)) (set_col l s cs)
  = if p l then set_col l s (filter (fun c => p (fst c)) cs)
    else filter (fun c => p (fst c)) cs.
Proof.
  induction cs as [|c cs IH]; intros H; [destruct H|].
  simpl in *. destruct (String.eqb l (fst c)) eqn:E.
  - apply String.eqb_eq in E. subst l. simpl.
    destruct (p (fst c)); simpl; [rewrite String.eqb_refl|]; reflexivity.
  - assert (Hin : In l (map fst cs)).
    { destruct H as [H|H]; [|exact H].
      apply String.eqb_neq in E. congruence. }
    simpl. rewrite (IH Hin).
    destruct (p (fst c)), (p l); simpl; try rewrite E; reflexivity.
Qed.

Lemma vsum_set_col (n : nat) (l : string) (old h : list nat)
  (cs : list (string * list nat)) :
  find_col l cs = Ok old ->
  vsum n (map snd (set_col l (vadd old h) cs))
  = vadd h (vsum n (map snd cs)).
Proof.
  unfold vsum. induction cs as [|c cs IH]; intros H; [discriminate|].
  simpl in *. destruct (String.eqb l (fst c)).
  - injection H as <-. simpl. rewrite (vadd_comm (snd c) h).
    symmetry. apply vadd_assoc.
  - simpl. rewrite (IH H), !vadd_assoc. f_equal. apply vadd_comm.
Qed.

Lemma find_col_filter {A : Type} (p : string -> bool) (l : string)
  (cs : list (string * list A)) :
  p l = true ->
  find_col l (filter (fun c => p (fst c)) cs) = find_col l cs.
Proof.
  intros Hp. induction cs as [|c cs IH]; [reflexivity|].
  simpl. destruct (p (fst c)) eqn:E; simpl.
  - rewrite IH. reflexivity.
  - destruct (String.eqb l (fst c)) eqn:El; [|exact IH].
    apply String.eqb_eq in El. congruence.
Qed.

Lemma find_col_set_col {A : Type} (l l' : string) (s : list A)
  (cs : list (string * list A)) :
  In l (map fst cs) ->
  find_col l' (set_col l s cs)
  = if String.eqb l' l then Ok s else find_col l' cs.
Proof.
  induction cs as [|c cs IH]; intros H; [destruct H|].
  simpl in *. destruct (String.eqb l (fst c)) eqn:E; simpl.
  - apply String.eqb_eq in E. subst l.
    destruct (String.eqb l' (fst c)); reflexivity.
  - assert (Hin : In l (map fst cs)).
    { destruct H as [H|H]; [|exact H].
      apply String.eqb_neq in E. congruence. }
    rewrite (IH Hin). destruct (String.eqb l' (fst c)) eqn:E'; [|reflexivity].
    apply String.eqb_eq in E'. subst l'.
    rewrite String.eqb_sym, E. reflexivity.
Qed.

(** With distinct labels, a column is dropped exactly when it is hapax. *)
Lemma mem_hapaxes (cs : list (string * list nat)) (c : string * list nat) :
  NoDup (map fst cs) -> In c cs ->
  Str.mem (fst c) (map fst (filter hapax cs)) = hapax c.
Proof.
  intros Hnd Hin. destruct (hapax c) eqn:E.
  - apply mem_In, in_map, filter_In. tauto.
  - apply mem_false. intros H. apply in_map_iff in H.
    destruct H as [c' [Hl Hc']]. apply filter_In in Hc'.
    destruct Hc' as [Hin' Hh].
    pose proof (find_col_NoDup cs c Hnd Hin) as F.
    pose proof (find_col_NoDup cs c' Hnd Hin') as F'.
    rewrite Hl, F in F'. injection F' as F'.
    unfold hapax in *. congruence.
Qed.

Lemma find_col_In {A : Type} (l : string) (s : list A)
  (cs : list (string * list A)) :
  find_col l cs = Ok s -> In (l, s) cs.
Proof.
  induction cs as [|[k v] cs IH]; intros H; [discriminate|].
  simpl in *. destruct (String.eqb l k) eqn:E.
  - apply String.eqb_eq in E. injection H as <-. left. congruence.
  - right. apply IH. exact H.
Qed.

Lemma filter_none {A : Type} (f : A -> bool) (l : list A) :
  (forall x, In x l -> f x = false) -> filter f l = [].
Proof.
  induction l as [|x l IH]; intros H; [reflexivity|].
  simpl. rewrite (H x) by (left; reflexivity).
  apply IH. intros y Hy. apply H. right. exact Hy.
Qed.

Lemma In_set_col {A : Type} (l : string) (s : list A)
  (cs : list (string * list A)) (c : string * list A) :
  In c (set_col l s cs) -> c = (l, s) \/ In c cs.
Proof.
  induction cs as [|x cs IH]; simpl.
  - intros [<-|[]]. left. reflexivity.
  - destruct (String.eqb l (fst x)); simpl.
    + intros [<-|H]; auto.
    + intros [<-|H]; auto. destruct (IH H); auto.
Qed.

Lemma kept_columns (cs : list (string * list nat)) :
  NoDup (map fst cs) ->
  filter (fun c => negb (Str.mem (fst c) (map fst (filter hapax cs)))) cs
  = filter (fun c => negb (hapax c)) cs.
Proof.
  intros Hnd. apply filter_ext_in_bool. intros c Hc.
  rewrite (mem_hapaxes cs c Hnd Hc). reflexivity.
Qed.

(** When the frame has a "no_article" column that is not hapax, the merge
    succeeds: it keeps the columns that are not hapax and replaces the
    "no_article" column by its sum with the row totals of the hapax
    columns. *)
Lemma merge_hapaxes_ok (df : DataFrame nat) (no_article : list nat) :
  NoDup (columns df) ->
  getitem df "no_article" = Ok no_article ->
  hapax ("no_article", no_article) = false ->
  merge_hapaxes df
  = Ok (mkFrame (index df)
          (set_col "no_article"
             (vadd no_article
                (vsum (List.length (index df))
                   (map snd (filter hapax (cols df)))))
             (filter (fun c => negb (hapax c)) (cols df)))).
Proof.
  intros Hnd Hget Hna. unfold merge_hapaxes. rewrite Hget. simpl.
  unfold getitem in Hget. unfold getitems, columns in *.
  rewrite hapaxes_of_cols.
  rewrite (find_cols_sub (cols df) (filter hapax (cols df)) Hnd)
    by apply incl_filter.
  simpl. unfold drop, setitem, columns. simpl.
  pose proof (find_col_In _ _ _ Hget) as Hin.
  assert (Hlab : In "no_article" (map fst (cols df)))
    by (apply (in_map fst) in Hin; exact Hin).
  rewrite (set_col_labels _ _ _ Hlab).
  rewrite filter_none.
  2:{ intros l Hl. apply negb_false_iff, mem_In.
      apply in_map_iff in Hl. destruct Hl as [c [<- Hc]].
      apply filter_In in Hc. apply in_map. tauto. }
  rewrite (filter_set_col
             (fun l => negb (Str.mem l (map fst (filter hapax (cols df)))))
             _ _ _ Hlab).
  pose proof (mem_hapaxes (cols df) ("no_article", no_article) Hnd Hin)
    as Hmem.
  simpl fst in Hmem. rewrite Hmem, Hna.
  simpl. rewrite (kept_columns (cols df) Hnd). reflexivity.
Qed.

Lemma get_sum0_find_col (cs : list (string * list nat)) (l : string) :
  get (map (fun c => (fst c, list_sum (snd c))) cs) l
  = match find_col l cs with
    | Ok s => list_sum s
    | Raise _ => 0
    end.
Proof.
  induction cs as [|c cs IH]; simpl; [reflexivity|].
  destruct (String.eqb l (fst c)); [reflexivity | exact IH].
Qed.

Lemma column_total_hapax (df : DataFrame nat) (c : string * list nat) :
  NoDup (columns df) -> In c (cols df) ->
  (column_total df (fst c) =? 1) = hapax c.
Proof.
  intros Hnd Hin. unfold column_total, sum0, hapax.
  rewrite get_sum0_find_col, (find_col_NoDup (cols df) c Hnd Hin).
  reflexivity.
Qed.

Lemma map_fst_filter {A : Type} (p : string * A -> bool) (q : string -> bool)
  (cs : list (string * A)) :
  (forall c, In c cs -> p c = q (fst c)) ->
  map fst (filter p cs) = filter q (map fst cs).
Proof.
  induction cs as [|c cs IH]; intros H; [reflexivity|].
  simpl. rewrite <- (H c) by (left; reflexivity).
  destruct (p c); simpl; rewrite IH; try reflexivity;
    intros x Hx; apply H; right; exact Hx.
Qed.

(** The good case of the merge: the columns of total 1 go, "no_article"
    stays, every other column that stays keeps its cells, the hapax counts
    of a row are added to its "no_article" cell, and the row totals and the
    grand total are as before. *)
Lemma merge_hapaxes_spec (df : DataFrame nat) (no_article : list nat) :
  NoDup (columns df) ->
  getitem df "no_article" = Ok no_article ->
  list_sum no_article <> 1 ->
  exists df',
    merge_hapaxes df = Ok df'
    /\ index df' = index df
    /\ columns df'
       = filter (fun l => negb (column_total df l =? 1)) (columns df)
    /\ In "no_article" (columns df')
    /\ getitem df' "no_article"
       = Ok (vadd no_article
               (vsum (List.length (index df))
                  (map snd (filter hapax (cols df)))))
    /\ (forall l, l <> "no_article" -> In l (columns df') ->
                  getitem df' l = getitem df l)
    /\ sum1 df' = sum1 df
    /\ grand_total df' = grand_total df.
Proof.
  intros Hnd Hget Hne.
  assert (Hna : hapax ("no_article", no_article) = false)
    by (unfold hapax; simpl; apply Nat.eqb_neq; exact Hne).
  eexists. split; [apply (merge_hapaxes_ok df no_article Hnd Hget Hna)|].
  set (h := vsum (List.length (index df)) (map snd (filter hapax (cols df)))).
  set (kept := filter (fun c => negb (hapax c)) (cols df)).
  unfold getitem in Hget.
  pose proof (find_col_In _ _ _ Hget) as Hin.
  assert (Hkin : In ("no_article", no_article) kept).
  { apply filter_In. rewrite Hna. tauto. }
  assert (Hklab : In "no_article" (map fst kept))
    by (apply (in_map fst) in Hkin; exact Hkin).
  assert (Hcols : map fst kept
                  = filter (fun l => negb (column_total df l =? 1))
                      (columns df)).
  { apply map_fst_filter. intros c Hc.
    rewrite (column_total_hapax df c Hnd Hc). reflexivity. }
  assert (Hkfind : forall l, In l (map fst kept) ->
                             find_col l kept = find_col l (cols df)).
  { intros l Hl. unfold kept.
    rewrite <- (kept_columns (cols df) Hnd).
    apply (find_col_filter
             (fun l => negb (Str.mem l (map fst (filter hapax (cols df)))))).
    apply in_map_iff in Hl. destruct Hl as [c [<- Hc]].
    apply filter_In in Hc. destruct Hc as [Hc Hh].
    rewrite (mem_hapaxes (cols df) c Hnd Hc). exact Hh. }
  unfold columns, getitem, grand_total. simpl.
  rewrite (set_col_labels _ _ _ Hklab).
  split; [reflexivity|]. split; [exact Hcols|]. split; [exact Hklab|].
  split; [rewrite (find_col_set_col _ _ _ _ Hklab); reflexivity|].
  assert (Hsum : sum1 (mkFrame (index df)
                         (set_col "no_article" (vadd no_article h) kept))
                 = sum1 df).
  { rewrite !sum1_vsum. simpl.
    rewrite vsum_set_col by (rewrite (Hkfind _ Hklab); exact Hget).
    unfold h, kept. symmetry. apply vsum_partition. }
  split; [|split; [exact Hsum | rewrite Hsum; reflexivity]].
  intros l Hl Hlin. rewrite (find_col_set_col _ _ _ _ Hklab).
  destruct (String.eqb l "no_article") eqn:E;
    [apply String.eqb_eq in E; congruence|].
  apply Hkfind. exact Hlin.
Qed.

Lemma list_sum_ones (cs : list (string * list nat)) :
  list_sum (map (@list_sum) (map snd (filter hapax cs)))
  = List.length (filter hapax cs).
Proof.
  induction cs as [|c cs IH]; simpl; [reflexivity|].
  destruct (hapax c) eqn:E; simpl; [|exact IH].
  unfold hapax in E. apply Nat.eqb_eq in E. rewrite E, IH. reflexivity.
Qed.

(** When "no_article" has a total of 2 or more, a second merge returns the
    merged table as it is. *)
Lemma merge_hapaxes_idempotent (df : DataFrame nat) :
  well_formed df ->
  2 <= column_total df "no_article" ->
  exists df',
    merge_hapaxes df = Ok df'
    /\ hapaxes_of df' = []
    /\ merge_hapaxes df' = Ok df'.
Proof.
  intros [Hnd Hlen] Htot.
  unfold column_total, sum0 in Htot. rewrite get_sum0_find_col in Htot.
  destruct (find_col "no_article" (cols df)) as [no_article|e] eqn:Hget;
    [|lia].
  assert (Hna : hapax ("no_article", no_article) = false)
    by (unfold hapax; simpl; apply Nat.eqb_neq; lia).
  eexists. split; [apply (merge_hapaxes_ok df no_article Hnd Hget Hna)|].
  set (n := List.length (index df)).
  set (h := vsum n (map snd (filter hapax (cols df)))).
  set (kept := filter (fun c => negb (hapax c)) (cols df)).
  set (new := vadd no_article h).
  pose proof (find_col_In _ _ _ Hget) as Hin.
  rewrite Forall_forall in Hlen.
  assert (Hl1 : List.length no_article = n) by (apply (Hlen _ Hin)).
  assert (Hhap : Forall (fun v => List.length v = n)
                   (map snd (filter hapax (cols df)))).
  { apply Forall_forall. intros v Hv. apply in_map_iff in Hv.
    destruct Hv as [c [<- Hc]]. apply filter_In in Hc. apply Hlen. tauto. }
  assert (Hl2 : List.length h = n) by (apply vsum_length; exact Hhap).
  assert (Hl3 : List.length new = n)
    by (unfold new; rewrite vadd_length; congruence).
  assert (Hklab : In "no_article" (map fst kept)).
  { change "no_article" with (fst ("no_article", no_article)).
    apply in_map, filter_In. rewrite Hna. tauto. }
  assert (Hnone : filter hapax (set_col "no_article" new kept) = []).
  { apply filter_none. intros c Hc. apply In_set_col in Hc.
    destruct Hc as [->|Hc].
    - unfold hapax, new. simpl. apply Nat.eqb_neq.
      rewrite list_sum_vadd by congruence. lia.
    - apply filter_In in Hc. apply negb_true_iff. tauto. }
  assert (Hhapaxes : hapaxes_of (mkFrame (index df)
                                   (set_col "no_article" new kept)) = []).
  { rewrite hapaxes_of_cols. simpl. rewrite Hnone. reflexivity. }
  split; [exact Hhapaxes|].
  unfold merge_hapaxes. rewrite Hhapaxes. unfold getitem, getitems. simpl.
  rewrite (find_col_set_col _ _ _ _ Hklab). simpl.
  unfold sum1. simpl. fold n. rewrite <- Hl3 at 1. rewrite vadd_zeros.
  unfold drop, setitem. simpl.
  rewrite set_col_same
    by (rewrite (find_col_set_col _ _ _ _ Hklab); reflexivity).
  rewrite filter_all_true. reflexivity.
Qed.

(** ** The table before the merge *)

Lemma heads_map_cons {A B : Type} (f : B -> A) (g : B -> list A)
  (cs : list B) :
  heads (map (fun c => f c :: g c) cs) = map f cs.
Proof.
  unfold heads. induction cs as [|c cs IH]; simpl; [reflexivity|].
  rewrite IH. reflexivity.
Qed.

(** The transposition of columns built over the row labels. *)
Lemma rows_of_map {A B : Type} (f : B -> string -> A) (idx : list string)
  (cs : list B) :
  rows_of idx (map (fun c => map (f c) idx) cs)
  = map (fun l => (l, map (fun c => f c l) cs)) idx.
Proof.
  induction idx as [|l idx IH]; [reflexivity|].
  simpl. rewrite (heads_map_cons (fun c => f c l) (fun c => map (f c) idx)).
  rewrite map_map. simpl. rewrite IH. reflexivity.
Qed.

Lemma lookup_get (c : Counter) (l : string) :
  match lookup c l with Some n => n | None => 0 end = get c l.
Proof.
  induction c as [|[k v] c IH]; simpl; [reflexivity|].
  destruct (String.eqb l k); [reflexivity | exact IH].
Qed.

(** The cells of the table: for each label a column with the count of the
    label in the counter of each noun. *)
Lemma cols_to_frame (na : list (string * Counter)) :
  cols (to_frame na)
  = map (fun l => (l, map (fun r => get (snd r) l) na))
        (union_indexes (map (fun e => keys (snd e)) na)).
Proof.
  unfold to_frame, fillna, T, DataFrame_of_dict. simpl.
  rewrite map_map. simpl.
  rewrite (rows_of_map (fun e l => lookup (snd e) l)).
  rewrite map_map. simpl. apply map_ext. intros l. f_equal.
  rewrite map_map. apply map_ext. intros r. apply lookup_get.
Qed.

Lemma NoDup_add_new (ks seen : list string) :
  NoDup seen -> NoDup (add_new seen ks).
Proof.
  revert seen. induction ks as [|k ks IH]; intros seen H; [exact H|].
  simpl. apply IH. destruct (Str.mem k seen) eqn:E; [exact H|].
  apply mem_false in E.
  apply NoDup_app; [exact H | repeat constructor; intros [] |].
  intros x Hx [<-|[]]. contradiction.
Qed.

Lemma NoDup_union_indexes (kss : list (list string)) :
  NoDup (union_indexes kss).
Proof.
  unfold union_indexes.
  assert (H : forall seen, NoDup seen -> NoDup (fold_left add_new kss seen)).
  { induction kss as [|ks kss IH]; intros seen Hs; [exact Hs|].
    simpl. apply IH, NoDup_add_new. exact Hs. }
  apply H. constructor.
Qed.

Lemma to_frame_well_formed (na : list (string * Counter)) :
  well_formed (to_frame na).
Proof.
  split.
  - rewrite columns_to_frame. apply NoDup_union_indexes.
  - rewrite cols_to_frame, index_to_frame. apply Forall_forall.
    intros c Hc. apply in_map_iff in Hc. destruct Hc as [l [<- _]].
    simpl. rewrite !length_map. reflexivity.
Qed.

Lemma vsum_map {B : Type} (g : B -> string -> nat) (rows : list B)
  (labels : list string) :
  vsum (List.length rows) (map (fun l => map (fun r => g r l) rows) labels)
  = map (fun r => list_sum (map (g r) labels)) rows.
Proof.
  unfold vsum. induction labels as [|l labels IH]; simpl.
  - induction rows as [|r rows IHr]; simpl; [|rewrite IHr]; reflexivity.
  - rewrite IH. clear IH.
    induction rows as [|r rows IHr]; simpl; [|rewrite IHr]; reflexivity.
Qed.

Lemma sum1_to_frame (na : list (string * Counter)) :
  sum1 (to_frame na)
  = map (fun r => list_sum
                    (map (get (snd r))
                       (union_indexes (map (fun e => keys (snd e)) na))))
        na.
Proof.
  rewrite sum1_vsum, cols_to_frame, index_to_frame, map_map, length_map.
  simpl. apply (vsum_map (fun r l => get (snd r) l)).
Qed.

Lemma get_absent (c : Counter) (k : string) :
  ~ In k (keys c) -> get c k = 0.
Proof.
  unfold keys.
  induction c as [|[k' v] c IH]; simpl; intros H; [reflexivity|].
  destruct (String.eqb k k') eqn:E.
  - apply String.eqb_eq in E. subst k'. tauto.
  - apply IH. tauto.
Qed.

Lemma list_sum_map_zero {A : Type} (f : A -> nat) (l : list A) :
  (forall x, In x l -> f x = 0) -> list_sum (map f l) = 0.
Proof.
  induction l as [|x l IH]; intros H; simpl; [reflexivity|].
  rewrite (H x) by (left; reflexivity).
  apply IH. intros y Hy. apply H. right. exact Hy.
Qed.

(** A value picked at one label of a list without repetition. *)
Lemma list_sum_pick (k : string) (v : nat) (f : string -> nat)
  (labels : list string) :
  NoDup labels -> In k labels ->
  list_sum (map (fun l => if String.eqb l k then v else f l) labels)
  = v + list_sum (map (fun l => if String.eqb l k then 0 else f l) labels).
Proof.
  induction labels as [|l labels IH]; intros Hnd Hin; [destruct Hin|].
  inversion Hnd as [|? ? Hl Hnd']; subst. simpl.
  destruct (String.eqb l k) eqn:E.
  - apply String.eqb_eq in E. subst l.
    simpl. do 2 f_equal. apply map_ext_in. intros x Hx.
    destruct (String.eqb x k) eqn:Ex; [|reflexivity].
    apply String.eqb_eq in Ex. subst x. contradiction.
  - destruct Hin as [->|Hin]; [rewrite String.eqb_refl in E; discriminate|].
    rewrite (IH Hnd' Hin). lia.
Qed.

(** Over labels that cover its keys, a counter sums to its total. *)
Lemma list_sum_get (c : Counter) (labels : list string) :
  NoDup labels -> NoDup (keys c) -> incl (keys c) labels ->
  list_sum (map (get c) labels) = total c.
Proof.
  intros Hl. unfold total.
  induction c as [|[k v] c IH]; intros Hc Hincl; simpl.
  - apply list_sum_map_zero. reflexivity.
  - inversion Hc as [|? ? Hk Hc']; subst.
    rewrite (list_sum_pick k v (get c) labels Hl)
      by (apply Hincl; left; reflexivity).
    f_equal. rewrite <- IH; [|exact Hc'|].
    + f_equal. apply map_ext. intros l.
      destruct (String.eqb l k) eqn:E; [|reflexivity].
      apply String.eqb_eq in E. subst l. symmetry. apply get_absent.
      exact Hk.
    + intros x Hx. apply Hincl. right. exact Hx.
Qed.

Lemma get_combine_rows {B : Type} (g : string * B -> nat)
  (rows : list (string * B)) (n : string) :
  get (combine (map fst rows) (map g rows)) n
  = match find (fun r => String.eqb n (fst r)) rows with
    | Some r => g r
    | None => 0
    end.
Proof.
  induction rows as [|r rows IH]; simpl; [reflexivity|].
  destruct (String.eqb n (fst r)); [reflexivity | exact IH].
Qed.

(** The total of a row of the table is the total of the noun's counter. *)
Lemma row_total_to_frame (na : list (string * Counter)) (n : string) :
  (forall r, In r na -> NoDup (keys (snd r))) ->
  row_total (to_frame na) n = total (row na n).
Proof.
  intros Hnd. unfold row_total, row.
  rewrite sum1_to_frame, index_to_frame, get_combine_rows.
  destruct (find (fun r => String.eqb n (fst r)) na) as [r|] eqn:E;
    [|reflexivity].
  apply find_some in E. destruct E as [Hr _].
  apply list_sum_get.
  - apply NoDup_union_indexes.
  - apply Hnd. exact Hr.
  - intros l Hin. apply In_union_indexes. exists (keys (snd r)).
    split; [|exact Hin]. apply in_map_iff. exists r. tauto.
Qed.

Lemma NoDup_keys_incr (k : string) (c : Counter) :
  NoDup (keys c) -> NoDup (keys (incr k c)).
Proof.
  intros H. rewrite keys_incr. destruct (Str.mem k (keys c)) eqn:E; [exact H|].
  apply mem_false in E.
  apply NoDup_app; [exact H | repeat constructor; intros [] |].
  intros x Hx [<-|[]]. contradiction.
Qed.

Lemma foldM_record_NoDup (obs : list (string * string)) :
  forall na na' : list (string * Counter),
    foldM record obs na = Ok na' ->
    (forall n, NoDup (keys (row na n))) ->
    forall n, NoDup (keys (row na' n)).
Proof.
  induction obs as [|o obs IH]; intros na na' H Hnd n; simpl in H.
  - injection H as <-. apply Hnd.
  - destruct (record na o) as [na1|e] eqn:E; simpl in H; [|discriminate].
    apply (IH na1 na' H). intros m. rewrite (record_row na na1 o E).
    destruct (String.eqb (fst o) m); [apply NoDup_keys_incr|]; apply Hnd.
Qed.

Lemma mapM_ok_each {A B : Type} (f : A -> result B) (xs : list A)
  (ys : list B) :
  mapM f xs = Ok ys -> forall x, In x xs -> exists y, f x = Ok y.
Proof.
  revert ys. induction xs as [|x xs IH]; intros ys H a Ha; [destruct Ha|].
  simpl in H. destruct (f x) as [y|e] eqn:E; simpl in H; [|discriminate].
  destruct (mapM f xs) as [ys'|e]; simpl in H; [|discriminate].
  destruct Ha as [<-|Ha]; [exists y; exact E | apply (IH ys' eq_refl a Ha)].
Qed.

(** The observations are what the chunks of the documents yield. *)
Lemma observations_docs (nlp : Language) (nouns : Counter)
  (sentences : list string) (docs : list Doc) :
  mapM nlp sentences = Ok docs ->
  observations nlp nouns sentences
  = Ok (flat_map (process_chunk (keys nouns)) (flat_map noun_chunks docs)).
Proof.
  unfold observations. revert docs.
  induction sentences as [|s r IH]; intros docs H; simpl in H.
  - injection H as <-. reflexivity.
  - simpl. unfold process_sentence at 1.
    destruct (nlp s) as [d|e]; simpl in *; [|discriminate].
    destruct (mapM nlp r) as [ds|e]; simpl in H; [|discriminate].
    injection H as <-. specialize (IH ds eq_refl).
    destruct (mapM (fun sentence => process_sentence sentence nouns nlp) r)
      as [all|e]; simpl in *; [|discriminate].
    injection IH as IH. rewrite IH, flat_map_app. reflexivity.
Qed.

Lemma occurrences_app (n : string) (l1 l2 : list (string * string)) :
  occurrences n (l1 ++ l2) = occurrences n l1 + occurrences n l2.
Proof. unfold occurrences. rewrite filter_app, length_app. reflexivity. Qed.

(** Every chunk headed by a target noun is observed once. *)
Lemma occurrences_chunks (target_nouns : list string) (n : string)
  (chunks : list Span) :
  In n target_nouns ->
  occurrences n (flat_map (process_chunk target_nouns) chunks)
  = List.length (filter (fun chunk => String.eqb (head_noun chunk) n) chunks).
Proof.
  intros Hn. induction chunks as [|ch chunks IH]; [reflexivity|].
  simpl. rewrite occurrences_app, IH.
  destruct (Str.mem (head_noun ch) target_nouns) eqn:E.
  - rewrite (process_chunk_target target_nouns ch E).
    unfold occurrences. simpl.
    destruct (String.eqb (head_noun ch) n); reflexivity.
  - unfold process_chunk. fold (head_noun ch). rewrite E. simpl.
    destruct (String.eqb (head_noun ch) n) eqn:En; [|reflexivity].
    apply String.eqb_eq in En. apply mem_false in E. congruence.
Qed.

(** Before the merge the table has a row for each target noun, and the
    total of the row is the number of chunks of the corpus headed by the
    noun. *)
Lemma row_totals_before_merge (nlp : Language) (top_n : option Z)
  (tagged sentences : list string) (docs : list Doc) :
  mapM nlp (generate_sentences sentences) = Ok docs ->
  exists df,
    table_before_merge top_n nlp tagged sentences = Ok df
    /\ well_formed df
    /\ index df = keys (most_frequent_nouns tagged top_n)
    /\ forall n, In n (keys (most_frequent_nouns tagged top_n)) ->
                 row_total df n = chunk_occurrences n docs.
Proof.
  intros Hdocs. unfold table_before_merge.
  set (nouns := most_frequent_nouns tagged top_n).
  set (sents := generate_sentences sentences) in *.
  destruct (count_articles_spec nlp nouns sents (mapM_ok_each nlp sents docs Hdocs))
    as [obs [na [Ho [Hc [Hk [_ Ht]]]]]].
  rewrite Hc. simpl. exists (to_frame na).
  split; [reflexivity|]. split; [apply to_frame_well_formed|].
  split; [rewrite index_to_frame; exact Hk|].
  intros n Hn.
  assert (Hnd : NoDup (map fst na))
    by (rewrite Hk; apply most_frequent_nouns_NoDup).
  rewrite row_total_to_frame.
  - rewrite Ht. rewrite (observations_docs nlp nouns sents docs Hdocs) in Ho.
    injection Ho as <-. apply occurrences_chunks. exact Hn.
  - intros r Hr. rewrite <- (In_row na r Hnd Hr).
    rewrite (count_articles_observations nlp nouns sents obs Ho) in Hc.
    apply (foldM_record_NoDup obs _ na Hc).
    intros m. rewrite row_initial. constructor.
Qed.

(** The good case of [main]: when every sentence parses and "no_article"
    has a total of 2 or more before the merge, [main] saves a table that
    has a "no_article" column, whose row totals are the numbers of chunks
    headed by the nouns, and that a second merge leaves as it is. *)
Lemma main_good_case (nlp : Language) (top_n : option Z)
  (tagged sentences : list string) (docs : list Doc) (df : DataFrame nat) :
  mapM nlp (generate_sentences sentences) = Ok docs ->
  table_before_merge top_n nlp tagged sentences = Ok df ->
  2 <= column_total df "no_article" ->
  exists df',
    main_with top_n nlp tagged sentences = Ok df'
    /\ In "no_article" (columns df')
    /\ (forall n, In n (keys (most_frequent_nouns tagged top_n)) ->
                  row_total df' n = chunk_occurrences n docs)
    /\ grand_total df' = grand_total df
    /\ merge_hapaxes df' = Ok df'.
Proof.
  intros Hdocs Hdf Htot.
  destruct (row_totals_before_merge nlp top_n tagged sentences docs Hdocs)
    as [df0 [Hdf0 [Hwf [_ Hrows]]]].
  rewrite Hdf in Hdf0. injection Hdf0 as <-.
  destruct (merge_hapaxes_idempotent df Hwf Htot) as [df' [Hm [_ Hm']]].
  exists df'. rewrite main_with_merge, Hdf. simpl.
  split; [exact Hm|].
  pose proof Htot as Hget. unfold column_total, sum0 in Hget.
  rewrite get_sum0_find_col in Hget.
  destruct (find_col "no_article" (cols df)) as [no_article|e] eqn:E; [|lia].
  destruct (merge_hapaxes_spec df no_article (proj1 Hwf) E)
    as [df2 [Hm2 [Hidx [_ [Hin [_ [_ [Hsum Hg]]]]]]]]; [lia|].
  rewrite Hm in Hm2. injection Hm2 as <-.
  split; [exact Hin|]. split; [|split; [exact Hg | exact Hm']].
  intros n Hn. rewrite <- (Hrows n Hn). unfold row_total.
  rewrite Hidx, Hsum. reflexivity.
Qed.

(** ** The merge when "no_article" is itself hapax, and empty target sets *)

(** When the "no_article" column has total 1, the merge deletes every hapax
    column, "no_article" among them, and folds nothing: the columns that
    are left keep their cells. *)
Lemma merge_hapaxes_hapax_no_article (df : DataFrame nat)
  (no_article : list nat) :
  NoDup (columns df) ->
  getitem df "no_article" = Ok no_article ->
  list_sum no_article = 1 ->
  merge_hapaxes df
  = Ok (mkFrame (index df) (filter (fun c => negb (hapax c)) (cols df)))
  /\ ~ In "no_article"
         (map fst (filter (fun c => negb (hapax c)) (cols df))).
Proof.
  intros Hnd Hget Hone.
  assert (Hna : hapax ("no_article", no_article) = true)
    by (unfold hapax; simpl; rewrite Hone; reflexivity).
  unfold getitem in Hget. pose proof (find_col_In _ _ _ Hget) as Hin.
  split.
  - unfold merge_hapaxes, getitem. rewrite Hget. simpl.
    unfold getitems, columns in *. rewrite hapaxes_of_cols.
    rewrite (find_cols_sub (cols df) (filter hapax (cols df)) Hnd)
      by apply incl_filter.
    simpl. unfold drop, setitem, columns. simpl.
    assert (Hlab : In "no_article" (map fst (cols df)))
      by (apply (in_map fst) in Hin; exact Hin).
    rewrite (set_col_labels _ _ _ Hlab).
    rewrite filter_none.
    2:{ intros l Hl. apply negb_false_iff, mem_In.
        apply in_map_iff in Hl. destruct Hl as [c [<- Hc]].
        apply filter_In in Hc. apply in_map. tauto. }
    rewrite (filter_set_col
               (fun l => negb (Str.mem l (map fst (filter hapax (cols df)))))
               _ _ _ Hlab).
    pose proof (mem_hapaxes (cols df) ("no_article", no_article) Hnd Hin)
      as Hmem.
    simpl fst in Hmem. rewrite Hmem, Hna. simpl.
    rewrite (kept_columns (cols df) Hnd). reflexivity.
  - intros H. apply in_map_iff in H. destruct H as [c [Hl Hc]].
    apply filter_In in Hc. destruct Hc as [Hc Hh].
    pose proof (find_col_NoDup (cols df) c Hnd Hc) as F.
    rewrite Hl in F. unfold columns in Hnd. rewrite Hget in F.
    injection F as F. unfold hapax in *. simpl in Hna.
    rewrite <- F, Hna in Hh. discriminate Hh.
Qed.

(** A top-N of 0 is no top-N. *)
Lemma most_frequent_nouns_zero (corpus : list string) :
  most_frequent_nouns corpus (Some 0%Z) = most_frequent_nouns corpus None.
Proof. reflexivity. Qed.

(** With an empty set of target nouns and sentences that parse, [main]
    raises KeyError. *)
Lemma main_empty_target_set (nlp : Language) (top_n : option Z)
  (tagged sentences : list string) :
  most_frequent_nouns tagged top_n = [] ->
  (forall s, In s (generate_sentences sentences) -> exists d, nlp s = Ok d) ->
  table_before_merge top_n nlp tagged sentences = Ok (mkFrame [] [])
  /\ main_with top_n nlp tagged sentences = Raise (KeyError "no_article").
Proof.
  intros Hempty Hparse. split.
  - unfold table_before_merge. rewrite Hempty.
    destruct (count_articles_spec nlp [] (generate_sentences sentences) Hparse)
      as [obs [na [_ [Hc [Hk _]]]]].
    rewrite Hc. simpl. destruct na as [|r na]; [reflexivity | discriminate Hk].
  - apply main_without_no_article; [exact Hparse|].
    intros s d ch _ _ _ Hm. rewrite Hempty in Hm. discriminate Hm.
Qed.

(** ** The merge and the empty target set on examples *)

(** C1, at a corpus where "no_article" is observed once: the table before
    the merge has the columns "the" (total 2) and "no_article" (total 1);
    the merge counts "no_article" among the hapax columns and drops it, so
    the saved table has the single column "the". *)
Theorem C1_hapax_no_article_column_dropped :
  table_before_merge (Some 1000%Z) Toy.nlp Toy.dog_corpus Toy.one_bare_dog
  = Ok (mkFrame ["dog"] [("the", [2]); ("no_article", [1])])
  /\ hapaxes_of (mkFrame ["dog"] [("the", [2]); ("no_article", [1])])
     = ["no_article"]
  /\ main Toy.nlp Toy.dog_corpus Toy.one_bare_dog
     = Ok (mkFrame ["dog"] [("the", [2])]).
Proof. repeat split; vm_compute; reflexivity. Qed.

(** C2, at a top-N of 0 and at a tagged corpus without nouns: with top-N 0
    the counter returns the whole table, here the noun "dog", and the run
    goes on with it; with no noun in the tagged corpus the set of target
    nouns is empty, the table before the merge has no row and no column,
    and [main] raises KeyError "no_article". *)
Theorem C2_empty_target_set_not_handled :
  most_frequent_nouns Toy.dog_corpus (Some 0%Z) = [("dog", 1)]
  /\ main_with (Some 0%Z) Toy.nlp Toy.dog_corpus Toy.two_bare_dogs
     = Ok (mkFrame ["dog"] [("no_article", [2]); ("the", [2])])
  /\ most_frequent_nouns Toy.no_noun_corpus (Some 1000%Z) = []
  /\ table_before_merge (Some 1000%Z) Toy.nlp Toy.no_noun_corpus
       Toy.two_bare_dogs
     = Ok (mkFrame [] [])
  /\ main Toy.nlp Toy.no_noun_corpus Toy.two_bare_dogs
     = Raise (KeyError "no_article").
Proof. repeat split; vm_compute; reflexivity. Qed.

(** C3, at the table with "the" of total 2 and "no_article" of total 1: the
    first merge drops "no_article" with the other hapax columns, and the
    second merge, finding no "no_article" column, raises KeyError. *)
Theorem C3_second_merge_raises :
  merge_hapaxes (mkFrame ["dog"] [("the", [2]); ("no_article", [1])])
  = Ok (mkFrame ["dog"] [("the", [2])])
  /\ merge_hapaxes (mkFrame ["dog"] [("the", [2])])
     = Raise (KeyError "no_article").
Proof. split; vm_compute; reflexivity. Qed.

(** C4, at a corpus where "my" and "no_article" are each observed once:
    the row of "dog" has total 4 before the merge, the number of its
    chunks, and total 2 after it; the two counts folded into "no_article"
    leave the table with that column. *)
Theorem C4_merge_loses_counts :
  table_before_merge (Some 1000%Z) Toy.nlp Toy.dog_corpus Toy.one_bare_one_my
  = Ok (mkFrame ["dog"] [("the", [2]); ("my", [1]); ("no_article", [1])])
  /\ row_total
       (mkFrame ["dog"] [("the", [2]); ("my", [1]); ("no_article", [1])])
       "dog" = 4
  /\ main Toy.nlp Toy.dog_corpus Toy.one_bare_one_my
     = Ok (mkFrame ["dog"] [("the", [2])])
  /\ row_total (mkFrame ["dog"] [("the", [2])]) "dog" = 2
  /\ grand_total (mkFrame ["dog"] [("the", [2])]) = 2.
Proof. repeat split; vm_compute; reflexivity. Qed.

(** * Further properties *)

(** ** Case and surrounding whitespace in the tagged corpus *)

Lemma lower_char_idem (c : ascii) :
  Str.lower_char (Str.lower_char c) = Str.lower_char c.
Proof. destruct c as [[] [] [] [] [] [] [] []]; vm_compute; reflexivity. Qed.

Lemma isspace_lower_char (c : ascii) :
  Str.isspace_char (Str.lower_char c) = Str.isspace_char c.
Proof. destruct c as [[] [] [] [] [] [] [] []]; vm_compute; reflexivity. Qed.

Lemma lower_idem (s : string) : Str.lower (Str.lower s) = Str.lower s.
Proof.
  induction s as [|c r IH]; simpl; [reflexivity|].
  rewrite lower_char_idem, IH. reflexivity.
Qed.

Lemma lower_lstrip (s : string) :
  Str.lstrip (Str.lower s) = Str.lower (Str.lstrip s).
Proof.
  induction s as [|c r IH]; simpl; [reflexivity|].
  rewrite isspace_lower_char. destruct (Str.isspace_char c); [exact IH|].
  reflexivity.
Qed.

Lemma lower_rstrip (s : string) :
  Str.rstrip (Str.lower s) = Str.lower (Str.rstrip s).
Proof.
  induction s as [|c r IH]; simpl; [reflexivity|].
  rewrite IH, isspace_lower_char.
  destruct (Str.rstrip r) as [|a r']; simpl; [|reflexivity].
  destruct (Str.isspace_char c); reflexivity.
Qed.

Lemma lower_strip (s : string) :
  Str.strip (Str.lower s) = Str.lower (Str.strip s).
Proof. unfold Str.strip. rewrite lower_lstrip, lower_rstrip. reflexivity. Qed.

Lemma rstrip_idem (s : string) : Str.rstrip (Str.rstrip s) = Str.rstrip s.
Proof.
  induction s as [|c r IH]; simpl; [reflexivity|].
  destruct (Str.rstrip r) as [|a r'] eqn:E.
  - destruct (Str.isspace_char c) eqn:Ec; simpl; [reflexivity|].
    rewrite Ec. reflexivity.
  - change (Str.rstrip (String c (String a r')))
      with (match Str.rstrip (String a r') with
            | EmptyString =>
                if Str.isspace_char c then EmptyString
                else String c EmptyString
            | r0 => String c r0
            end).
    rewrite IH. reflexivity.
Qed.

(** What [lstrip] leaves is empty or starts with a character that is not
    white space, and [rstrip] keeps such a start. *)
Lemma lstrip_rstrip_lstrip (s : string) :
  Str.lstrip (Str.rstrip (Str.lstrip s)) = Str.rstrip (Str.lstrip s).
Proof.
  induction s as [|c r IH]; simpl; [reflexivity|].
  destruct (Str.isspace_char c) eqn:Ec; [exact IH|].
  simpl. destruct (Str.rstrip r); rewrite ?Ec; simpl; rewrite Ec; reflexivity.
Qed.

Lemma strip_idem (s : string) : Str.strip (Str.strip s) = Str.strip s.
Proof.
  unfold Str.strip. rewrite lstrip_rstrip_lstrip. apply rstrip_idem.
Qed.

Lemma fields_lower (line : string) : fields (Str.lower line) = fields line.
Proof. unfold fields. rewrite lower_strip, lower_idem. reflexivity. Qed.

Lemma fields_strip (line : string) : fields (Str.strip line) = fields line.
Proof. unfold fields. rewrite strip_idem. reflexivity. Qed.

Lemma count_lines_map (f : string -> string) (corpus : list string) :
  (forall line, fields (f line) = fields line) ->
  count_lines (map f corpus) = count_lines corpus.
Proof.
  intros H. unfold count_lines. generalize (@nil (string * nat)).
  induction corpus as [|line corpus IH]; intros c; [reflexivity|].
  simpl. rewrite IH. f_equal. unfold count_line.
  fold (fields (f line)). fold (fields line). rewrite H. reflexivity.
Qed.

(** X1: the counter is blind to case and to white space around a line:
    lowercasing every line of the tagged corpus, or stripping every line,
    before the call gives the same table, for every top-N. *)
Theorem X1_counter_ignores_case_and_padding :
  forall (corpus : list string) (top_n : option Z),
    most_frequent_nouns (map Str.lower corpus) top_n
    = most_frequent_nouns corpus top_n
    /\ most_frequent_nouns (map Str.strip corpus) top_n
       = most_frequent_nouns corpus top_n.
Proof.
  intros corpus top_n. unfold most_frequent_nouns.
  rewrite (count_lines_map Str.lower corpus fields_lower).
  rewrite (count_lines_map Str.strip corpus fields_strip).
  split; reflexivity.
Qed.

(** ** The entries of the table *)

Lemma split_lower_fixed (sep : ascii) (s : string) :
  Str.lower s = s ->
  Forall (fun f => Str.lower f = f) (Str.split sep s).
Proof.
  induction s as [|c r IH]; intros H; simpl.
  - repeat constructor.
  - simpl in H. injection H as Hc Hr. specialize (IH Hr).
    destruct (Ascii.eqb c sep); [constructor; [reflexivity | exact IH]|].
    destruct (Str.split sep r) as [|f fs].
    + repeat constructor. simpl. rewrite Hc. reflexivity.
    + inversion IH as [|? ? Hf Hfs]; subst. constructor; [|exact Hfs].
      simpl. rewrite Hc, Hf. reflexivity.
Qed.

Lemma noun_token_lower (line token : string) :
  noun_token line = Some token -> Str.lower token = token.
Proof.
  unfold noun_token, fields. intros H.
  pose proof (split_lower_fixed Str.tab (Str.lower (Str.strip line))
                (lower_idem _)) as F.
  destruct (Str.split Str.tab (Str.lower (Str.strip line)))
    as [|t [|tag [|x r]]]; try discriminate.
  destruct (Str.startswith tag "nn"); [|discriminate].
  injection H as <-. inversion F. assumption.
Qed.

Lemma noun_tokens_In (corpus : list string) (token : string) :
  In token (noun_tokens corpus) <->
  exists line, In line corpus /\ noun_token line = Some token.
Proof.
  unfold noun_tokens. rewrite in_flat_map. split.
  - intros [line [Hl Ht]]. exists line. split; [exact Hl|].
    destruct (noun_token line); [destruct Ht as [->|[]]; reflexivity|].
    destruct Ht.
  - intros [line [Hl Ht]]. exists line. split; [exact Hl|].
    rewrite Ht. left. reflexivity.
Qed.

Lemma In_most_frequent_nouns (corpus : list string) (top_n : option Z)
  (e : string * nat) :
  In e (most_frequent_nouns corpus top_n) ->
  In e (remove_non_alpha (count_lines corpus)).
Proof.
  unfold most_frequent_nouns. destruct top_n as [n|]; [|tauto].
  destruct (n =? 0)%Z; [tauto|]. unfold most_common. intros H.
  apply (Permutation_in e (sorted_desc_perm _)).
  rewrite <- (firstn_skipn (Z.to_nat n)). apply in_or_app. left. exact H.
Qed.

(** X2: for every corpus and every top-N, the nouns of the returned table
    are distinct, alphabetic and in lower case, and the count of a noun is
    the number of the lines that contribute it, which is at least 1. *)
Theorem X2_table_entries_well_formed :
  forall (corpus : list string) (top_n : option Z),
    NoDup (keys (most_frequent_nouns corpus top_n))
    /\ forall e, In e (most_frequent_nouns corpus top_n) ->
                 Str.isalpha (fst e) = true
                 /\ Str.lower (fst e) = fst e
                 /\ snd e = count_occ string_dec (noun_tokens corpus) (fst e)
                 /\ 1 <= snd e.
Proof.
  intros corpus top_n. split; [apply most_frequent_nouns_NoDup|].
  intros e He. apply In_most_frequent_nouns in He.
  assert (Hnd : NoDup (keys (remove_non_alpha (count_lines corpus))))
    by apply (most_frequent_nouns_NoDup corpus None).
  pose proof (In_get _ e Hnd He) as Hget.
  unfold remove_non_alpha in He. apply filter_In in He.
  destruct He as [He Ha].
  assert (Htok : In (fst e) (noun_tokens corpus)).
  { apply first_occurrences_In. rewrite <- keys_count_lines.
    apply in_map. exact He. }
  assert (Hcount : snd e = count_occ string_dec (noun_tokens corpus) (fst e)).
  { rewrite <- Hget, get_remove_non_alpha by exact Ha.
    apply get_count_lines. }
  split; [exact Ha|]. split; [|split; [exact Hcount|]].
  - apply noun_tokens_In in Htok. destruct Htok as [line [_ Ht]].
    apply (noun_token_lower line). exact Ht.
  - rewrite Hcount. apply (count_occ_In string_dec) in Htok. lia.
Qed.

Lemma X2_table_entries_well_formed_witness :
  most_frequent_nouns Toy.noisy_corpus (Some 1%Z) = [("cat", 2)]
  /\ Str.isalpha "cat" = true /\ Str.lower "cat" = "cat"
  /\ 2 = count_occ string_dec (noun_tokens Toy.noisy_corpus) "cat"
  /\ 1 <= 2.
Proof.
  split; [reflexivity|].
  apply (proj2 (X2_table_entries_well_formed Toy.noisy_corpus (Some 1%Z))
           ("cat", 2)).
  vm_compute. left. reflexivity.
Defined.

(** ** The top-N parameter *)

(** X3: a larger top-N only adds nouns at the end: for 0 < K <= K' the table
    for K is the first K entries of the table for K'. *)
Theorem X3_top_n_prefix :
  forall (corpus : list string) (K K' : Z),
    (0 < K)%Z -> (K <= K')%Z ->
    most_frequent_nouns corpus (Some K)
    = firstn (Z.to_nat K) (most_frequent_nouns corpus (Some K')).
Proof.
  intros corpus K K' H0 Hle. unfold most_frequent_nouns, most_common.
  destruct (K =? 0)%Z eqn:E; [apply Z.eqb_eq in E; lia|].
  destruct (K' =? 0)%Z eqn:E'; [apply Z.eqb_eq in E'; lia|].
  rewrite firstn_firstn. f_equal. lia.
Qed.

Lemma X3_top_n_prefix_witness :
  most_frequent_nouns Toy.tie_corpus (Some 2%Z)
  = firstn 2 (most_frequent_nouns Toy.tie_corpus (Some 3%Z)).
Proof.
  apply (X3_top_n_prefix Toy.tie_corpus 2%Z 3%Z); [reflexivity|].
  intros H. discriminate H.
Defined.

(** X4: a negative top-N gives the empty table, and a top-N that is not
    below the number of nouns drops none: the result has the entries of the
    table without top-N. *)
Theorem X4_top_n_bounds :
  forall (corpus : list string) (K : Z),
    ((K < 0)%Z -> most_frequent_nouns corpus (Some K) = [])
    /\ ((Z.of_nat (List.length (most_frequent_nouns corpus None)) <= K)%Z ->
        Permutation (most_frequent_nouns corpus (Some K))
                    (most_frequent_nouns corpus None)).
Proof.
  intros corpus K. unfold most_frequent_nouns, most_common. split.
  - intros H. destruct (K =? 0)%Z eqn:E; [apply Z.eqb_eq in E; lia|].
    replace (Z.to_nat K) with 0 by lia. reflexivity.
  - intros H. destruct (K =? 0)%Z; [reflexivity|].
    rewrite firstn_all2; [apply sorted_desc_perm|].
    rewrite sorted_desc_length. lia.
Qed.

Lemma X4_top_n_bounds_witness :
  most_frequent_nouns Toy.tie_corpus (Some (-1)%Z) = []
  /\ Permutation (most_frequent_nouns Toy.tie_corpus (Some 7%Z))
                 (most_frequent_nouns Toy.tie_corpus None).
Proof.
  split.
  - apply (proj1 (X4_top_n_bounds Toy.tie_corpus (-1)%Z)). reflexivity.
  - apply (proj2 (X4_top_n_bounds Toy.tie_corpus 7%Z)). vm_compute.
    intros H. discriminate H.
Defined.

(** ** The alphabetic filter *)

Lemma remove_non_alpha_incr (t : string) (c : Counter) :
  remove_non_alpha (incr t c)
  = if Str.isalpha t then incr t (remove_non_alpha c)
    else remove_non_alpha c.
Proof.
  unfold remove_non_alpha.
  induction c as [|[k v] c IH]; simpl.
  - destruct (Str.isalpha t); reflexivity.
  - destruct (String.eqb t k) eqn:E; simpl.
    + apply String.eqb_eq in E. subst k.
      destruct (Str.isalpha t); simpl; [rewrite String.eqb_refl|];
        reflexivity.
    + rewrite IH. destruct (Str.isalpha k), (Str.isalpha t); simpl;
        try rewrite E; reflexivity.
Qed.

Lemma remove_non_alpha_fold (tokens : list string) (c : Counter) :
  remove_non_alpha (fold_left (fun acc token => incr token acc) tokens c)
  = fold_left (fun acc token => incr token acc)
      (filter Str.isalpha tokens) (remove_non_alpha c).
Proof.
  revert c. induction tokens as [|t tokens IH]; intros c; [reflexivity|].
  simpl. rewrite IH, remove_non_alpha_incr.
  destruct (Str.isalpha t); reflexivity.
Qed.

Lemma noun_tokens_counted (corpus : list string) :
  noun_tokens (filter counted_line corpus)
  = filter Str.isalpha (noun_tokens corpus).
Proof.
  unfold noun_tokens, counted_line.
  induction corpus as [|line corpus IH]; [reflexivity|].
  simpl. destruct (noun_token line) as [t|] eqn:E; simpl.
  - destruct (Str.isalpha t); simpl; rewrite ?E, IH; reflexivity.
  - exact IH.
Qed.

Lemma filter_idem {A : Type} (f : A -> bool) (l : list A) :
  filter f (filter f l) = filter f l.
Proof.
  rewrite filter_filter. apply filter_ext_in_bool. intros x _.
  destruct (f x); reflexivity.
Qed.

(** X5: filtering after the count is the same as not counting: the lines
    that are malformed, that are not tagged as nouns, or whose token is not
    alphabetic can be taken out of the corpus without changing the result,
    for every top-N. *)
Theorem X5_uncounted_lines_are_inert :
  forall (corpus : list string) (top_n : option Z),
    most_frequent_nouns (filter counted_line corpus) top_n
    = most_frequent_nouns corpus top_n.
Proof.
  intros corpus top_n.
  assert (H : remove_non_alpha (count_lines (filter counted_line corpus))
              = remove_non_alpha (count_lines corpus)).
  { unfold count_lines. rewrite !count_lines_noun_tokens.
    rewrite !remove_non_alpha_fold, noun_tokens_counted, filter_idem.
    reflexivity. }
  unfold most_frequent_nouns. rewrite H. reflexivity.
Qed.

(** ** Separators and blank lines *)

Lemma foldM_ext_in {A S : Type} (body body' : S -> A -> result S)
  (xs : list A) :
  (forall s x, In x xs -> body s x = body' s x) ->
  forall s, foldM body xs s = foldM body' xs s.
Proof.
  induction xs as [|x xs IH]; intros H s; [reflexivity|].
  simpl. rewrite (H s x) by (left; reflexivity).
  destruct (body' s x) as [s'|e]; simpl; [|reflexivity].
  apply IH. intros s0 y Hy. apply H. right. exact Hy.
Qed.

Lemma generate_sentences_In (corpus : list string) (s : string) :
  In s (generate_sentences corpus) <-> In s corpus /\ skipped_line s = false.
Proof.
  unfold generate_sentences, skipped_line. rewrite filter_In.
  rewrite <- negb_orb, negb_true_iff. tauto.
Qed.

(** X6: the parser is never run on a document separator or on a blank
    line: two parsers that agree on every other line give the same result
    of [main], whatever they do on the lines that are skipped. *)
Theorem X6_parser_not_run_on_skipped_lines :
  forall (nlp nlp' : Language) (top_n : option Z)
         (tagged sentences : list string),
    (forall s, Str.startswith s "---" = false ->
               Str.strip s <> EmptyString -> nlp s = nlp' s) ->
    main_with top_n nlp tagged sentences
    = main_with top_n nlp' tagged sentences.
Proof.
  intros nlp nlp' top_n tagged sentences H. unfold main_with, count_articles.
  rewrite (foldM_ext_in
             (fun nouns_articles sentence =>
                observations <- process_sentence sentence
                                  (most_frequent_nouns tagged top_n) nlp ;;
                foldM record observations nouns_articles)
             (fun nouns_articles sentence =>
                observations <- process_sentence sentence
                                  (most_frequent_nouns tagged top_n) nlp' ;;
                foldM record observations nouns_articles));
    [reflexivity|].
  intros na s Hs. apply generate_sentences_In in Hs. destruct Hs as [_ Hs].
  unfold skipped_line in Hs. apply orb_false_iff in Hs.
  destruct Hs as [H1 H2]. apply String.eqb_neq in H2.
  unfold process_sentence. rewrite (H s H1 H2). reflexivity.
Qed.

Lemma X6_parser_not_run_on_skipped_lines_witness :
  Toy.strict_nlp (Toy.line "--- document 1")
  = Raise (ParserError "not a sentence")
  /\ main Toy.nlp Toy.dog_corpus Toy.corpus_with_separators
     = main Toy.strict_nlp Toy.dog_corpus Toy.corpus_with_separators.
Proof.
  split; [reflexivity|].
  apply (X6_parser_not_run_on_skipped_lines Toy.nlp Toy.strict_nlp).
  intros s H1 H2. unfold Toy.strict_nlp. rewrite H1.
  apply String.eqb_neq in H2. rewrite H2. reflexivity.
Defined.

(** X7: a document separator or a blank line can be put anywhere into the
    sentence corpus without changing the result of [main]. *)
Theorem X7_skipped_lines_do_not_change_result :
  forall (nlp : Language) (top_n : option Z)
         (tagged before after : list string) (l : string),
    Str.startswith l "---" = true \/ Str.strip l = EmptyString ->
    main_with top_n nlp tagged (before ++ l :: after)
    = main_with top_n nlp tagged (before ++ after).
Proof.
  intros nlp top_n tagged before after l H. unfold main_with.
  assert (E : generate_sentences (before ++ l :: after)
              = generate_sentences (before ++ after)).
  { unfold generate_sentences. rewrite !filter_app. simpl.
    destruct H as [H|H]; rewrite H; simpl; [reflexivity|].
    rewrite andb_false_r. reflexivity. }
  rewrite E. reflexivity.
Qed.

Lemma X7_skipped_lines_do_not_change_result_witness :
  main Toy.nlp Toy.dog_corpus
    ([Toy.line "Dog barked."] ++ Toy.line "   " :: Toy.two_bare_dogs)
  = main Toy.nlp Toy.dog_corpus ([Toy.line "Dog barked."] ++ Toy.two_bare_dogs).
Proof.
  apply (X7_skipped_lines_do_not_change_result
           Toy.nlp (Some 1000%Z) Toy.dog_corpus
           [Toy.line "Dog barked."] Toy.two_bare_dogs (Toy.line "   ")).
  right. reflexivity.
Defined.

(** ** What a sentence yields *)





(** X9: when the parser returns a document, the sentence yields one pair
    for each chunk whose lowercased head is a target noun, in the order of
    the chunks, and nothing for the other chunks. *)
Theorem X9_one_pair_per_target_chunk :
  forall (nlp : Language) (target_nouns : Counter) (sentence : string)
         (obs : list (string * string)),
    process_sentence sentence target_nouns nlp = Ok obs ->
    exists d,
      nlp sentence = Ok d
      /\ map fst obs
         = filter (fun noun => Str.mem noun (keys target_nouns))
                  (map head_noun (noun_chunks d)).
Proof.
  intros nlp target_nouns sentence obs H. unfold process_sentence in H.
  destruct (nlp sentence) as [d|e]; simpl in H; [|discriminate].
  injection H as <-. exists d. split; [reflexivity|].
  induction (noun_chunks d) as [|ch chunks IH]; [reflexivity|].
  simpl. rewrite map_app, IH.
  destruct (Str.mem (head_noun ch) (keys target_nouns)) eqn:E.
  - rewrite (process_chunk_target _ ch E). reflexivity.
  - unfold process_chunk. fold (head_noun ch). rewrite E. reflexivity.
Qed.

Lemma X9_one_pair_per_target_chunk_witness :
  exists d,
    Toy.nlp (Toy.line "The dog barked.") = Ok d
    /\ map fst [("dog", "the")]
       = filter (fun noun => Str.mem noun (keys [("dog", 1)]))
                (map head_noun (noun_chunks d)).
Proof.
  apply (X9_one_pair_per_target_chunk Toy.nlp [("dog", 1)]
           (Toy.line "The dog barked.") [("dog", "the")]).
  reflexivity.
Defined.

Lemma scan_children_none_inv (cs : list Token) :
  scan_children cs = None -> forall x, In x cs -> passed_over x.
Proof.
  induction cs as [|y cs IH]; intros H x Hx; [destruct Hx|].
  destruct (decisive_or_passed_over y) as [Hy|Hy].
  - rewrite (scan_children_step_decisive y cs Hy) in H. discriminate H.
  - rewrite (scan_children_step_passed y cs Hy) in H.
    destruct Hx as [<-|Hx]; [exact Hy | apply (IH H x Hx)].
Qed.

(** X10: a chunk headed by a target noun gets the label "no_article"
    exactly when the scan passes over every child: no determiner and no
    possessive can give that label. *)
Theorem X10_no_article_only_without_article_child :
  forall (target_nouns : list string) (chunk : Span),
    Str.mem (head_noun chunk) target_nouns = true ->
    (process_chunk target_nouns chunk = [(head_noun chunk, "no_article")]
     <-> forall x, In x (children (root chunk)) -> passed_over x).
Proof.
  intros target_nouns chunk H. rewrite (process_chunk_target _ _ H). split.
  - intros E. apply scan_children_none_inv.
    destruct (scan_children (children (root chunk))) as [a|] eqn:Es;
      [|reflexivity].
    injection E as ->. apply scan_children_label in Es.
    destruct Es as [Es|Es]; discriminate Es.
  - intros Hall. rewrite (scan_children_none _ Hall). reflexivity.
Qed.

Lemma X10_no_article_only_without_article_child_witness :
  process_chunk ["dog"] Toy.bare_dog = [("dog", "no_article")]
  <-> forall x, In x (children (root Toy.bare_dog)) -> passed_over x.
Proof.
  apply (X10_no_article_only_without_article_child ["dog"] Toy.bare_dog).
  reflexivity.
Defined.

(** ** The cells and the rows of the table *)

Lemma foldM_record_get (obs : list (string * string)) :
  forall na na' : list (string * Counter),
    foldM record obs na = Ok na' ->
    forall n l,
      get (row na' n) l
      = get (row na n) l
        + List.length (filter (fun o => String.eqb (fst o) n
                                        && String.eqb (snd o) l) obs).
Proof.
  induction obs as [|o obs IH]; intros na na' H n l; simpl in H.
  - injection H as <-. simpl. lia.
  - destruct (record na o) as [na1|e] eqn:E; simpl in H; [|discriminate].
    rewrite (IH na1 na' H n l), (record_row na na1 o E). simpl.
    destruct (String.eqb (fst o) n); simpl; [|reflexivity].
    rewrite get_incr, (String.eqb_sym l (snd o)).
    destruct (String.eqb (snd o) l); simpl; lia.
Qed.

Lemma find_col_map {A : Type} (f : string -> list A) (labels : list string)
  (l : string) :
  find_col l (map (fun l' => (l', f l')) labels)
  = if Str.mem l labels then Ok (f l) else Raise (KeyError l).
Proof.
  unfold Str.mem. induction labels as [|k labels IH]; [reflexivity|].
  simpl. destruct (String.eqb l k) eqn:E; [|exact IH].
  apply String.eqb_eq in E. subst k. reflexivity.
Qed.

Lemma row_In (na : list (string * Counter)) (n : string) :
  row na n = [] \/ exists r, In r na /\ fst r = n /\ row na n = snd r.
Proof.
  unfold row.
  destruct (find (fun r => String.eqb n (fst r)) na) as [r|] eqn:E;
    [|left; reflexivity].
  right. apply find_some in E. destruct E as [Hr E].
  apply String.eqb_eq in E. exists r. auto.
Qed.

(** A cell of the table is the count of the label in the noun's counter. *)
Lemma cell_to_frame (na : list (string * Counter)) (n l : string) :
  cell (to_frame na) n l = get (row na n) l.
Proof.
  unfold cell, getitem. rewrite cols_to_frame, index_to_frame.
  rewrite (find_col_map (fun l' => map (fun r => get (snd r) l') na)).
  destruct (Str.mem l (union_indexes (map (fun e => keys (snd e)) na)))
    eqn:E.
  - rewrite (get_combine_rows (fun r => get (snd r) l)). unfold row.
    destruct (find (fun r => String.eqb n (fst r)) na); reflexivity.
  - apply mem_false in E. symmetry.
    destruct (row_In na n) as [->|[r [Hr [_ ->]]]]; [reflexivity|].
    apply get_absent. intros Hin. apply E, In_union_indexes.
    exists (keys (snd r)). split; [|exact Hin].
    apply in_map_iff. exists r. tauto.
Qed.

Lemma pairs_of_chunks (target_nouns : list string) (n l : string)
  (chunks : list Span) :
  In n target_nouns ->
  List.length (filter (fun o => String.eqb (fst o) n && String.eqb (snd o) l)
                 (flat_map (process_chunk target_nouns) chunks))
  = List.length (filter (fun chunk => String.eqb (head_noun chunk) n
                                      && String.eqb (chunk_label chunk) l)
                   chunks).
Proof.
  intros Hn. induction chunks as [|ch chunks IH]; [reflexivity|].
  simpl. rewrite filter_app, length_app, IH.
  destruct (Str.mem (head_noun ch) target_nouns) eqn:E.
  - rewrite (process_chunk_target target_nouns ch E). simpl.
    fold (chunk_label ch).
    destruct (String.eqb (head_noun ch) n && String.eqb (chunk_label ch) l);
      reflexivity.
  - unfold process_chunk. fold (head_noun ch). rewrite E. simpl.
    destruct (String.eqb (head_noun ch) n) eqn:En; [|reflexivity].
    apply String.eqb_eq in En. apply mem_false in E. congruence.
Qed.

(** X11: when every sentence parses, the cell of the table before the merge
    at a target noun and a label is the number of chunks of the corpus that
    are headed by the noun and get that label; a label that was never
    observed for the noun counts 0. *)
Theorem X11_cells_count_labelled_chunks :
  forall (nlp : Language) (top_n : option Z) (tagged sentences : list string)
         (docs : list Doc),
    mapM nlp (generate_sentences sentences) = Ok docs ->
    exists df,
      table_before_merge top_n nlp tagged sentences = Ok df
      /\ forall noun label,
          In noun (keys (most_frequent_nouns tagged top_n)) ->
          cell df noun label = labelled_chunks noun label docs.
Proof.
  intros nlp top_n tagged sentences docs Hdocs. unfold table_before_merge.
  set (nouns := most_frequent_nouns tagged top_n).
  set (sents := generate_sentences sentences) in *.
  pose proof (observations_docs nlp nouns sents docs Hdocs) as Ho.
  destruct (count_articles_spec nlp nouns sents
              (mapM_ok_each nlp sents docs Hdocs))
    as [obs [na [Ho' [Hc _]]]].
  rewrite Ho in Ho'. injection Ho' as <-.
  rewrite Hc. simpl. exists (to_frame na). split; [reflexivity|].
  intros n l Hn. rewrite cell_to_frame.
  rewrite (count_articles_observations nlp nouns sents _ Ho) in Hc.
  rewrite (foldM_record_get _ _ na Hc n l), row_initial. simpl.
  apply pairs_of_chunks. exact Hn.
Qed.

Lemma X11_cells_count_labelled_chunks_witness :
  exists df,
    table_before_merge (Some 1000%Z) Toy.nlp Toy.dog_corpus
      Toy.one_bare_one_my = Ok df
    /\ forall noun label,
        In noun (keys (most_frequent_nouns Toy.dog_corpus (Some 1000%Z))) ->
        cell df noun label
        = labelled_chunks noun label
            [mkDoc [Toy.the_dog]; mkDoc [Toy.my_dog]; mkDoc [Toy.the_dog];
             mkDoc [Toy.bare_dog]].
Proof.
  apply (X11_cells_count_labelled_chunks Toy.nlp (Some 1000%Z)
           Toy.dog_corpus Toy.one_bare_one_my).
  reflexivity.
Defined.

Lemma foldM_record_keys (obs : list (string * string)) :
  forall na na' : list (string * Counter),
    foldM record obs na = Ok na' -> map fst na' = map fst na.
Proof.
  induction obs as [|o obs IH]; intros na na' H; simpl in H.
  - injection H as <-. reflexivity.
  - destruct (record na o) as [na1|e] eqn:E; simpl in H; [|discriminate].
    rewrite (IH na1 na' H). apply (record_keys na na1 o E).
Qed.

Lemma count_articles_keys (nlp : Language) (nouns : Counter)
  (sentences : list string) (na : list (string * Counter)) :
  count_articles nlp nouns sentences = Ok na -> map fst na = keys nouns.
Proof.
  unfold count_articles. rewrite <- (keys_initial nouns).
  generalize (map (fun e => (fst e, @nil (string * nat))) nouns).
  induction sentences as [|s r IH]; intros na0 H; simpl in H.
  - injection H as <-. reflexivity.
  - destruct (process_sentence s nouns nlp) as [o|e]; simpl in H;
      [|discriminate].
    destruct (foldM record o na0) as [na1|e] eqn:E; simpl in H;
      [|discriminate].
    rewrite (IH na1 H). apply (foldM_record_keys o na0 na1 E).
Qed.

Lemma merge_hapaxes_index (df df' : DataFrame nat) :
  merge_hapaxes df = Ok df' -> index df' = index df.
Proof.
  unfold merge_hapaxes, getitem, getitems.
  destruct (find_col "no_article" (cols df)); simpl; [|discriminate].
  destruct (find_cols (hapaxes_of df) (cols df)); simpl; [|discriminate].
  unfold drop.
  match goal with |- context [filter ?f ?l] =>
    destruct (filter f l); [|discriminate] end.
  intros H. injection H as <-. reflexivity.
Qed.

(** X12: whenever a table is built, and whenever [main] saves one, its rows
    are the target nouns, each once and in the order of the frequency
    table: a noun that was never observed keeps its row, and the merge
    removes no row. *)
Theorem X12_rows_are_the_target_nouns :
  forall (nlp : Language) (top_n : option Z) (tagged sentences : list string)
         (df : DataFrame nat),
    (table_before_merge top_n nlp tagged sentences = Ok df ->
     index df = keys (most_frequent_nouns tagged top_n))
    /\ (main_with top_n nlp tagged sentences = Ok df ->
        index df = keys (most_frequent_nouns tagged top_n)).
Proof.
  intros nlp top_n tagged sentences df.
  assert (Hb : forall t, table_before_merge top_n nlp tagged sentences = Ok t ->
                         index t = keys (most_frequent_nouns tagged top_n)).
  { intros t. unfold table_before_merge.
    destruct (count_articles nlp (most_frequent_nouns tagged top_n)
                (generate_sentences sentences)) as [na|e] eqn:E; simpl;
      [|discriminate].
    intros H. injection H as <-. rewrite index_to_frame.
    apply (count_articles_keys nlp _ _ na E). }
  split; [apply Hb|].
  rewrite main_with_merge.
  destruct (table_before_merge top_n nlp tagged sentences) as [t|e];
    simpl; [|discriminate].
  intros H. rewrite (merge_hapaxes_index t df H). apply Hb. reflexivity.
Qed.

Lemma X12_rows_are_the_target_nouns_witness :
  index (mkFrame ["dog"; "cat"] [("no_article", [2; 0]); ("the", [2; 0])])
  = keys (most_frequent_nouns [Str.tsv "dog" "NN"; Str.tsv "cat" "NN"]
            (Some 1000%Z)).
Proof.
  apply (proj2 (X12_rows_are_the_target_nouns Toy.nlp (Some 1000%Z)
                  [Str.tsv "dog" "NN"; Str.tsv "cat" "NN"]
                  Toy.two_bare_dogs
                  (mkFrame ["dog"; "cat"]
                     [("no_article", [2; 0]); ("the", [2; 0])]))).
  vm_compute. reflexivity.
Defined.

(** ** When [main] raises and when it saves a table *)

Lemma mapM_cases {A B : Type} (f : A -> result B) (xs : list A) :
  (exists ys, mapM f xs = Ok ys)
  \/ (exists pre x post e,
         xs = pre ++ x :: post
         /\ (forall a, In a pre -> exists b, f a = Ok b)
         /\ f x = Raise e).
Proof.
  induction xs as [|x xs IH].
  - left. exists []. reflexivity.
  - destruct (f x) as [y|e] eqn:E.
    + destruct IH as [[ys H]|[pre [x' [post [e [Hs [Hp Hx]]]]]]].
      * left. exists (y :: ys). simpl. rewrite E, H. reflexivity.
      * right. exists (x :: pre), x', post, e. split; [rewrite Hs; reflexivity|].
        split; [|exact Hx].
        intros a [<-|Ha]; [exists y; exact E | apply Hp; exact Ha].
    + right. exists [], x, xs, e. split; [reflexivity|].
      split; [intros a [] | exact E].
Qed.

Lemma mapM_In {A B : Type} (f : A -> result B) (xs : list A) (ys : list B)
  (x : A) (y : B) :
  mapM f xs = Ok ys -> In x xs -> f x = Ok y -> In y ys.
Proof.
  revert ys. induction xs as [|a xs IH]; intros ys H Hx Hy; [destruct Hx|].
  simpl in H. destruct (f a) as [b|e] eqn:E; simpl in H; [|discriminate].
  destruct (mapM f xs) as [ys'|e]; simpl in H; [|discriminate].
  injection H as <-. destruct Hx as [->|Hx].
  - left. congruence.
  - right. apply (IH ys' eq_refl Hx Hy).
Qed.

Lemma mapM_all_ok {A B : Type} (f : A -> result B) (xs : list A) :
  (forall x, In x xs -> exists y, f x = Ok y) -> exists ys, mapM f xs = Ok ys.
Proof.
  intros H. destruct (mapM_cases f xs) as [Hok|[pre [x [post [e [Hs [_ Hx]]]]]]];
    [exact Hok|].
  destruct (H x) as [y Hy]; [rewrite Hs; apply in_elt|]. congruence.
Qed.


(** With distinct labels and a "no_article" column the merge succeeds. *)
Lemma merge_hapaxes_present (df : DataFrame nat) :
  NoDup (columns df) -> In "no_article" (columns df) ->
  exists df', merge_hapaxes df = Ok df'.
Proof.
  intros Hnd Hin.
  destruct (find_col_present "no_article" (cols df) Hin) as [col [Hget _]].
  destruct (Nat.eq_dec (list_sum col) 1) as [H1|H1].
  - eexists. apply (merge_hapaxes_hapax_no_article df col Hnd Hget H1).
  - eexists. apply (merge_hapaxes_ok df col Hnd Hget).
    unfold hapax. simpl. apply Nat.eqb_neq. exact H1.
Qed.



Lemma chunk_label_no_article (chunk : Span) :
  chunk_label chunk = "no_article"
  <-> forall x, In x (children (root chunk)) -> passed_over x.
Proof.
  unfold chunk_label. split.
  - intros H. apply scan_children_none_inv.
    destruct (scan_children (children (root chunk))) as [a|] eqn:E;
      [|reflexivity].
    subst a. apply scan_children_label in E. destruct E as [E|E];
      discriminate E.
  - intros H. rewrite (scan_children_none _ H). reflexivity.
Qed.

Lemma get_positive_In (c : Counter) (l : string) :
  1 <= get c l -> In l (keys c).
Proof.
  intros H. destruct (in_dec string_dec l (keys c)) as [Hin|Hout];
    [exact Hin|].
  rewrite (get_absent c l Hout) in H. lia.
Qed.

Lemma filter_length_pos {A : Type} (f : A -> bool) (l : list A) (x : A) :
  In x l -> f x = true -> 1 <= List.length (filter f l).
Proof.
  intros Hin Hf. assert (H : In x (filter f l)) by (apply filter_In; tauto).
  destruct (filter f l); [destruct H | simpl; lia].
Qed.

(** X14: when every sentence parses, [main] saves a table if and only if
    some chunk of the corpus is headed by a target noun and has no child
    that gives it an article; otherwise it raises. *)
Theorem X14_table_saved_iff_a_bare_target_chunk :
  forall (nlp : Language) (top_n : option Z) (tagged sentences : list string)
         (docs : list Doc),
    mapM nlp (generate_sentences sentences) = Ok docs ->
    ((exists df, main_with top_n nlp tagged sentences = Ok df)
     <-> exists chunk,
          In chunk (flat_map noun_chunks docs)
          /\ In (head_noun chunk) (keys (most_frequent_nouns tagged top_n))
          /\ forall x, In x (children (root chunk)) -> passed_over x).
Proof.
  intros nlp top_n tagged sentences docs Hdocs. unfold main_with.
  set (nouns := most_frequent_nouns tagged top_n).
  set (sents := generate_sentences sentences) in *.
  pose proof (mapM_ok_each nlp sents docs Hdocs) as Hparse.
  pose proof (observations_docs nlp nouns sents docs Hdocs) as Ho.
  destruct (count_articles_spec nlp nouns sents Hparse)
    as [obs [na [Ho' [Hc [Hk [Hl _]]]]]].
  rewrite Ho in Ho'. injection Ho' as <-.
  assert (Hnd : NoDup (map fst na))
    by (rewrite Hk; apply most_frequent_nouns_NoDup).
  rewrite Hc. simpl. split.
  - intros [df Hm].
    destruct (in_dec string_dec "no_article" (columns (to_frame na)))
      as [Hin|Hout];
      [|rewrite (merge_hapaxes_missing (to_frame na) Hout) in Hm;
        discriminate Hm].
    apply In_columns_to_frame in Hin. destruct Hin as [r [Hr Hin]].
    rewrite <- (In_row na r Hnd Hr) in Hin. apply Hl in Hin.
    apply in_flat_map in Hin. destruct Hin as [ch [Hch Hpc]].
    apply process_chunk_In in Hpc. destruct Hpc as [Hm' [_ Hnone]].
    exists ch. split; [exact Hch|]. split; [apply mem_In; exact Hm'|].
    apply scan_children_none_inv, Hnone. reflexivity.
  - intros [ch [Hch [Hn Hall]]].
    apply merge_hapaxes_present; [apply to_frame_well_formed|].
    apply In_columns_to_frame.
    rewrite (count_articles_observations nlp nouns sents _ Ho) in Hc.
    pose proof (foldM_record_get _ _ na Hc (head_noun ch) "no_article")
      as Hg.
    rewrite row_initial in Hg. simpl in Hg.
    rewrite (pairs_of_chunks (keys nouns) (head_noun ch) "no_article" _ Hn)
      in Hg.
    assert (Hpos : 1 <= get (row na (head_noun ch)) "no_article").
    { rewrite Hg. apply (filter_length_pos _ _ ch Hch).
      rewrite String.eqb_refl. simpl. apply String.eqb_eq.
      apply chunk_label_no_article. exact Hall. }
    apply get_positive_In in Hpos.
    destruct (row_In na (head_noun ch)) as [E|[r [Hr [_ E]]]];
      rewrite E in Hpos; [destruct Hpos|].
    exists r. tauto.
Qed.

Lemma X14_table_saved_iff_a_bare_target_chunk_witness :
  (exists df, main Toy.nlp Toy.dog_corpus Toy.one_bare_dog = Ok df)
  <-> exists chunk,
      In chunk (flat_map noun_chunks
                  [mkDoc [Toy.the_dog]; mkDoc [Toy.the_dog];
                   mkDoc [Toy.bare_dog]])
      /\ In (head_noun chunk)
            (keys (most_frequent_nouns Toy.dog_corpus (Some 1000%Z)))
      /\ forall x, In x (children (root chunk)) -> passed_over x.
Proof.
  apply (X14_table_saved_iff_a_bare_target_chunk Toy.nlp (Some 1000%Z)
           Toy.dog_corpus Toy.one_bare_dog).
  reflexivity.
Defined.

(** ** The columns of the saved table *)

Lemma incr_positive (k : string) (c : Counter) :
  Forall (fun e => 1 <= snd e) c -> Forall (fun e => 1 <= snd e) (incr k c).
Proof.
  induction c as [|[k' v] c IH]; intros H; simpl.
  - repeat constructor.
  - inversion H as [|? ? Hv Hc]; subst.
    destruct (String.eqb k k'); constructor; simpl in *; auto; lia.
Qed.

Lemma foldM_record_positive (obs : list (string * string)) :
  forall na na' : list (string * Counter),
    foldM record obs na = Ok na' ->
    (forall n, Forall (fun e => 1 <= snd e) (row na n)) ->
    forall n, Forall (fun e => 1 <= snd e) (row na' n).
Proof.
  induction obs as [|o obs IH]; intros na na' H Hpos n; simpl in H.
  - injection H as <-. apply Hpos.
  - destruct (record na o) as [na1|e] eqn:E; simpl in H; [|discriminate].
    apply (IH na1 na' H). intros m. rewrite (record_row na na1 o E).
    destruct (String.eqb (fst o) m); [apply incr_positive|]; apply Hpos.
Qed.

Lemma get_In_positive (c : Counter) (l : string) :
  Forall (fun e => 1 <= snd e) c -> In l (keys c) -> 1 <= get c l.
Proof.
  unfold keys. induction c as [|[k v] c IH]; intros H Hin; [destruct Hin|].
  inversion H as [|? ? Hv Hc]; subst. simpl in *.
  destruct (String.eqb l k) eqn:E; [exact Hv|].
  destruct Hin as [Hin|Hin]; [apply String.eqb_neq in E; congruence|].
  apply IH; assumption.
Qed.

Lemma list_sum_ge_In {A : Type} (g : A -> nat) (l : list A) (x : A) :
  In x l -> g x <= list_sum (map g l).
Proof.
  induction l as [|y l IH]; intros H; [destruct H|].
  simpl. destruct H as [->|H]; [lia|]. specialize (IH H). lia.
Qed.

Lemma count_articles_ok_parses (nlp : Language) (nouns : Counter)
  (sentences : list string) (na : list (string * Counter)) :
  count_articles nlp nouns sentences = Ok na ->
  forall s, In s sentences -> exists d, nlp s = Ok d.
Proof.
  unfold count_articles.
  generalize (map (fun e => (fst e, @nil (string * nat))) nouns).
  induction sentences as [|x r IH]; intros na0 H s Hs; [destruct Hs|].
  simpl in H. unfold process_sentence at 1 in H.
  destruct (nlp x) as [d|e] eqn:E; simpl in H; [|discriminate].
  destruct (foldM record
              (flat_map (process_chunk (keys nouns)) (noun_chunks d)) na0)
    as [na1|e]; simpl in H; [|discriminate].
  destruct Hs as [<-|Hs]; [exists d; exact E | apply (IH na1 H s Hs)].
Qed.

(** Every column of the table before the merge was observed. *)
Lemma columns_observed (nlp : Language) (nouns : Counter)
  (sentences : list string) (na : list (string * Counter)) :
  NoDup (keys nouns) ->
  count_articles nlp nouns sentences = Ok na ->
  Forall (fun c => 1 <= list_sum (snd c)) (cols (to_frame na)).
Proof.
  intros Hnd Hc.
  pose proof (count_articles_ok_parses nlp nouns sentences na Hc) as Hparse.
  destruct (observations_ok nlp nouns sentences Hparse) as [obs [Ho _]].
  pose proof (count_articles_keys nlp nouns sentences na Hc) as Hk.
  rewrite (count_articles_observations nlp nouns sentences obs Ho) in Hc.
  assert (Hpos : forall n, Forall (fun e => 1 <= snd e) (row na n)).
  { apply (foldM_record_positive obs _ na Hc).
    intros m. rewrite row_initial. constructor. }
  rewrite cols_to_frame. apply Forall_forall. intros c Hin.
  apply in_map_iff in Hin. destruct Hin as [l [<- Hl]]. simpl.
  apply In_union_indexes in Hl. destruct Hl as [ks [Hks Hl]].
  apply in_map_iff in Hks. destruct Hks as [r [<- Hr]].
  apply Nat.le_trans with (get (snd r) l).
  - rewrite <- (In_row na r) by (rewrite ?Hk; assumption).
    apply get_In_positive; [apply Hpos|].
    rewrite (In_row na r) by (rewrite ?Hk; assumption). exact Hl.
  - apply (list_sum_ge_In (fun r => get (snd r) l) na r Hr).
Qed.

(** After a merge of observed columns every column has a total of 2 or
    more. *)
Lemma merged_columns (df df' : DataFrame nat) :
  well_formed df ->
  Forall (fun c => 1 <= list_sum (snd c)) (cols df) ->
  merge_hapaxes df = Ok df' ->
  Forall (fun c => 2 <= list_sum (snd c)) (cols df').
Proof.
  intros [Hnd Hlen] Hpos Hm. rewrite Forall_forall in Hpos, Hlen.
  destruct (in_dec string_dec "no_article" (columns df)) as [Hin|Hout];
    [|rewrite (merge_hapaxes_missing df Hout) in Hm; discriminate Hm].
  destruct (find_col_present "no_article" (cols df) Hin) as [col [Hget Hc]].
  assert (Hkept : forall c, In c (filter (fun c => negb (hapax c)) (cols df)) ->
                            2 <= list_sum (snd c)).
  { intros c Hc'. apply filter_In in Hc'. destruct Hc' as [Hc' Hh].
    apply negb_true_iff in Hh. unfold hapax in Hh. apply Nat.eqb_neq in Hh.
    specialize (Hpos c Hc'). simpl in Hpos. lia. }
  apply Forall_forall. intros c Hcin.
  destruct (Nat.eq_dec (list_sum col) 1) as [H1|H1].
  - rewrite (proj1 (merge_hapaxes_hapax_no_article df col Hnd Hget H1)) in Hm.
    injection Hm as <-. apply Hkept. exact Hcin.
  - rewrite (merge_hapaxes_ok df col Hnd Hget) in Hm
      by (unfold hapax; simpl; apply Nat.eqb_neq; exact H1).
    injection Hm as <-. simpl in Hcin. apply In_set_col in Hcin.
    destruct Hcin as [->|Hcin]; [|apply Hkept; exact Hcin].
    simpl. rewrite list_sum_vadd.
    + specialize (Hpos _ Hc). simpl in Hpos. lia.
    + rewrite vsum_length; [apply (Hlen _ Hc)|].
      apply Forall_forall. intros v Hv. apply in_map_iff in Hv.
      destruct Hv as [x [<- Hx]]. apply filter_In in Hx. apply Hlen. tauto.
Qed.

(** X15: a table that [main] saves has no column of total 0 or 1: every
    label that is left was observed at least twice, or is "no_article" with
    the counts folded into it. *)
Theorem X15_saved_columns_total_two_or_more :
  forall (nlp : Language) (top_n : option Z) (tagged sentences : list string)
         (df : DataFrame nat),
    main_with top_n nlp tagged sentences = Ok df ->
    Forall (fun c => 2 <= list_sum (snd c)) (cols df).
Proof.
  intros nlp top_n tagged sentences df H. unfold main_with in H.
  destruct (count_articles nlp (most_frequent_nouns tagged top_n)
              (generate_sentences sentences)) as [na|e] eqn:Hc;
    simpl in H; [|discriminate].
  apply (merged_columns (to_frame na) df (to_frame_well_formed na)); [|exact H].
  apply (columns_observed nlp (most_frequent_nouns tagged top_n)
           (generate_sentences sentences) na); [|exact Hc].
  apply most_frequent_nouns_NoDup.
Qed.

Lemma X15_saved_columns_total_two_or_more_witness :
  Forall (fun c => 2 <= list_sum (snd c))
    (cols (mkFrame ["dog"] [("the", [2])])).
Proof.
  apply (X15_saved_columns_total_two_or_more Toy.nlp (Some 1000%Z)
           Toy.dog_corpus Toy.one_bare_one_my).
  vm_compute. reflexivity.
Defined.

(** ** The merge as an operation on frames *)

Ltac distinct_labels :=
  repeat (constructor; [simpl; intuition discriminate|]); constructor.

(** X16: on a frame with distinct labels whose "no_article" column has a
    total other than 1, the merge succeeds; the columns left are those whose
    total is not 1, "no_article" is one of them, its cells are its old
    cells plus the row totals of the hapax columns, and every other column
    that is left keeps its cells. *)
Theorem X16_merge_folds_hapax_columns :
  forall (df : DataFrame nat) (no_article : list nat),
    NoDup (columns df) ->
    getitem df "no_article" = Ok no_article ->
    list_sum no_article <> 1 ->
    exists df',
      merge_hapaxes df = Ok df'
      /\ columns df'
         = filter (fun l => negb (column_total df l =? 1)) (columns df)
      /\ In "no_article" (columns df')
      /\ getitem df' "no_article"
         = Ok (vadd no_article
                 (sum1 (mkFrame (index df) (filter hapax (cols df)))))
      /\ forall l, l <> "no_article" -> In l (columns df') ->
                   getitem df' l = getitem df l.
Proof.
  intros df no_article Hnd Hget Hne.
  destruct (merge_hapaxes_spec df no_article Hnd Hget Hne)
    as [df' [Hm [_ [Hc [Hin [Hna [Hother _]]]]]]].
  exists df'. repeat split; assumption.
Qed.

Lemma X16_merge_folds_hapax_columns_witness :
  exists df',
    merge_hapaxes Toy.sparse_frame = Ok df'
    /\ columns df'
       = filter (fun l => negb (column_total Toy.sparse_frame l =? 1))
           (columns Toy.sparse_frame)
    /\ In "no_article" (columns df')
    /\ getitem df' "no_article"
       = Ok (vadd [0; 2]
               (sum1 (mkFrame (index Toy.sparse_frame)
                        (filter hapax (cols Toy.sparse_frame)))))
    /\ forall l, l <> "no_article" -> In l (columns df') ->
                 getitem df' l = getitem Toy.sparse_frame l.
Proof.
  apply (X16_merge_folds_hapax_columns Toy.sparse_frame [0; 2]).
  - unfold columns. simpl. distinct_labels.
  - reflexivity.
  - simpl. discriminate.
Defined.

(** X17: on a frame with distinct labels whose "no_article" column has a
    total other than 1, the merge keeps the rows, the total of every row
    and the grand total. *)
Theorem X17_merge_keeps_row_totals :
  forall (df : DataFrame nat) (no_article : list nat),
    NoDup (columns df) ->
    getitem df "no_article" = Ok no_article ->
    list_sum no_article <> 1 ->
    exists df',
      merge_hapaxes df = Ok df'
      /\ index df' = index df
      /\ sum1 df' = sum1 df
      /\ (forall noun, row_total df' noun = row_total df noun)
      /\ grand_total df' = grand_total df.
Proof.
  intros df no_article Hnd Hget Hne.
  destruct (merge_hapaxes_spec df no_article Hnd Hget Hne)
    as [df' [Hm [Hi [_ [_ [_ [_ [Hs Hg]]]]]]]].
  exists df'. repeat split; try assumption.
  intros noun. unfold row_total. rewrite Hi, Hs. reflexivity.
Qed.

Lemma X17_merge_keeps_row_totals_witness :
  exists df',
    merge_hapaxes Toy.sparse_frame = Ok df'
    /\ index df' = index Toy.sparse_frame
    /\ sum1 df' = sum1 Toy.sparse_frame
    /\ (forall noun, row_total df' noun = row_total Toy.sparse_frame noun)
    /\ grand_total df' = grand_total Toy.sparse_frame.
Proof.
  apply (X17_merge_keeps_row_totals Toy.sparse_frame [0; 2]).
  - unfold columns. simpl. distinct_labels.
  - reflexivity.
  - simpl. discriminate.
Defined.

(** X18: when every sentence parses, the table before the merge is well
    formed and the total of the row of a target noun is the number of
    chunks of the corpus headed by that noun. *)
Theorem X18_row_totals_count_chunks :
  forall (nlp : Language) (top_n : option Z) (tagged sentences : list string)
         (docs : list Doc),
    mapM nlp (generate_sentences sentences) = Ok docs ->
    exists df,
      table_before_merge top_n nlp tagged sentences = Ok df
      /\ well_formed df
      /\ forall noun, In noun (keys (most_frequent_nouns tagged top_n)) ->
                      row_total df noun = chunk_occurrences noun docs.
Proof.
  intros nlp top_n tagged sentences docs Hdocs.
  destruct (row_totals_before_merge nlp top_n tagged sentences docs Hdocs)
    as [df [Hdf [Hwf [_ Hrows]]]].
  exists df. repeat split; try assumption; apply Hwf.
Qed.

Lemma X18_row_totals_count_chunks_witness :
  exists df,
    table_before_merge (Some 1000%Z) Toy.nlp Toy.dog_corpus
      Toy.one_bare_one_my = Ok df
    /\ well_formed df
    /\ forall noun,
        In noun (keys (most_frequent_nouns Toy.dog_corpus (Some 1000%Z))) ->
        row_total df noun
        = chunk_occurrences noun
            [mkDoc [Toy.the_dog]; mkDoc [Toy.my_dog]; mkDoc [Toy.the_dog];
             mkDoc [Toy.bare_dog]].
Proof.
  apply (X18_row_totals_count_chunks Toy.nlp (Some 1000%Z) Toy.dog_corpus
           Toy.one_bare_one_my).
  reflexivity.
Defined.

(** X19: on a well-formed frame whose "no_article" column has a total of 2
    or more, the merged frame has no hapax column and a second merge returns
    it unchanged. *)
Theorem X19_merge_idempotent_above_one :
  forall df : DataFrame nat,
    well_formed df ->
    2 <= column_total df "no_article" ->
    exists df',
      merge_hapaxes df = Ok df'
      /\ hapaxes_of df' = []
      /\ merge_hapaxes df' = Ok df'.
Proof. intros df Hwf Htot. apply (merge_hapaxes_idempotent df Hwf Htot). Qed.

Lemma X19_merge_idempotent_above_one_witness :
  exists df',
    merge_hapaxes Toy.sparse_frame = Ok df'
    /\ hapaxes_of df' = []
    /\ merge_hapaxes df' = Ok df'.
Proof.
  apply (X19_merge_idempotent_above_one Toy.sparse_frame).
  - split; [unfold columns; simpl; distinct_labels|].
    repeat constructor.
  - vm_compute. repeat constructor.
Defined.

Lemma find_col_kept (cs : list (string * list nat)) (l : string) :
  NoDup (map fst cs) ->
  In l (map fst (filter (fun c => negb (hapax c)) cs)) ->
  find_col l (filter (fun c => negb (hapax c)) cs) = find_col l cs.
Proof.
  intros Hnd Hl. rewrite <- (kept_columns cs Hnd).
  apply (find_col_filter
           (fun l => negb (Str.mem l (map fst (filter hapax cs))))).
  apply in_map_iff in Hl. destruct Hl as [c [<- Hc]].
  apply filter_In in Hc. destruct Hc as [Hc Hh].
  rewrite (mem_hapaxes cs c Hnd Hc). exact Hh.
Qed.

(** X20: on a frame with distinct labels whose "no_article" column has
    total 1, the merge succeeds and removes every column of total 1,
    "no_article" among them; the columns that are left keep their cells, so
    each row total goes down by the row's hapax counts. *)
Theorem X20_merge_drops_hapax_no_article :
  forall (df : DataFrame nat) (no_article : list nat),
    NoDup (columns df) ->
    getitem df "no_article" = Ok no_article ->
    list_sum no_article = 1 ->
    exists df',
      merge_hapaxes df = Ok df'
      /\ columns df'
         = filter (fun l => negb (column_total df l =? 1)) (columns df)
      /\ ~ In "no_article" (columns df')
      /\ (forall l, In l (columns df') -> getitem df' l = getitem df l)
      /\ sum1 df
         = vadd (sum1 (mkFrame (index df) (filter hapax (cols df))))
                (sum1 df').
Proof.
  intros df no_article Hnd Hget H1.
  destruct (merge_hapaxes_hapax_no_article df no_article Hnd Hget H1)
    as [Hm Hout].
  eexists. split; [exact Hm|]. unfold columns, getitem. simpl.
  split; [|split; [exact Hout|split]].
  - apply map_fst_filter. intros c Hc.
    rewrite (column_total_hapax df c Hnd Hc). reflexivity.
  - intros l Hl. apply (find_col_kept (cols df) l Hnd Hl).
  - rewrite !sum1_vsum. simpl. apply vsum_partition.
Qed.

Lemma X20_merge_drops_hapax_no_article_witness :
  exists df',
    merge_hapaxes Toy.lonely_frame = Ok df'
    /\ columns df'
       = filter (fun l => negb (column_total Toy.lonely_frame l =? 1))
           (columns Toy.lonely_frame)
    /\ ~ In "no_article" (columns df')
    /\ (forall l, In l (columns df') ->
                  getitem df' l = getitem Toy.lonely_frame l)
    /\ sum1 Toy.lonely_frame
       = vadd (sum1 (mkFrame (index Toy.lonely_frame)
                       (filter hapax (cols Toy.lonely_frame))))
              (sum1 df').
Proof.
  apply (X20_merge_drops_hapax_no_article Toy.lonely_frame [0; 1]).
  - unfold columns. simpl. distinct_labels.
  - reflexivity.
  - reflexivity.
Defined.

(** X21: on a frame with distinct labels the merge raises exactly when the
    frame has no "no_article" column, and then it raises KeyError
    "no_article": the selection of the hapax columns and their removal never
    fail. *)
Theorem X21_merge_raises_iff_no_article_missing :
  forall df : DataFrame nat,
    NoDup (columns df) ->
    (merge_hapaxes df = Raise (KeyError "no_article")
     <-> ~ In "no_article" (columns df))
    /\ forall e, merge_hapaxes df = Raise e -> e = KeyError "no_article".
Proof.
  intros df Hnd.
  assert (H : forall e, merge_hapaxes df = Raise e ->
                        e = KeyError "no_article"
                        /\ ~ In "no_article" (columns df)).
  { intros e He.
    destruct (in_dec string_dec "no_article" (columns df)) as [Hin|Hout].
    - destruct (merge_hapaxes_present df Hnd Hin) as [df' Hm]. congruence.
    - rewrite (merge_hapaxes_missing df Hout) in He. injection He as <-.
      split; [reflexivity | exact Hout]. }
  split; [split|].
  - intros He. apply (H _ He).
  - apply merge_hapaxes_missing.
  - intros e He. apply (H _ He).
Qed.

Lemma X21_merge_raises_iff_no_article_missing_witness :
  (merge_hapaxes (mkFrame ["dog"] [("the", [2]); ("my", [1])])
   = Raise (KeyError "no_article")
   <-> ~ In "no_article" (columns (mkFrame ["dog"] [("the", [2]); ("my", [1])])))
  /\ forall e,
      merge_hapaxes (mkFrame ["dog"] [("the", [2]); ("my", [1])]) = Raise e ->
      e = KeyError "no_article".
Proof.
  apply (X21_merge_raises_iff_no_article_missing
           (mkFrame ["dog"] [("the", [2]); ("my", [1])])).
  unfold columns. simpl. distinct_labels.
Defined.

(** ** The whole run in the good case *)

(** X22: when every sentence parses and the "no_article" column of the
    table before the merge has a total of 2 or more, [main] saves a table
    with a "no_article" column in which the total of the row of a target
    noun is the number of chunks headed by the noun, with the grand total
    of the table before the merge, and on which a further merge changes
    nothing. *)
Theorem X22_main_keeps_counts_in_good_case :
  forall (nlp : Language) (top_n : option Z) (tagged sentences : list string)
         (docs : list Doc) (df : DataFrame nat),
    mapM nlp (generate_sentences sentences) = Ok docs ->
    table_before_merge top_n nlp tagged sentences = Ok df ->
    2 <= column_total df "no_article" ->
    exists df',
      main_with top_n nlp tagged sentences = Ok df'
      /\ In "no_article" (columns df')
      /\ (forall noun, In noun (keys (most_frequent_nouns tagged top_n)) ->
                       row_total df' noun = chunk_occurrences noun docs)
      /\ grand_total df' = grand_total df
      /\ merge_hapaxes df' = Ok df'.
Proof.
  intros nlp top_n tagged sentences docs df Hdocs Hdf Htot.
  apply (main_good_case nlp top_n tagged sentences docs df Hdocs Hdf Htot).
Qed.

Lemma X22_main_keeps_counts_in_good_case_witness :
  exists df',
    main Toy.nlp Toy.dog_corpus Toy.two_bare_dogs = Ok df'
    /\ In "no_article" (columns df')
    /\ (forall noun,
           In noun (keys (most_frequent_nouns Toy.dog_corpus (Some 1000%Z))) ->
           row_total df' noun
           = chunk_occurrences noun
               [mkDoc [Toy.bare_dog]; mkDoc [Toy.the_dog]; mkDoc [Toy.the_dog];
                mkDoc [Toy.bare_dog]])
    /\ grand_total df'
       = grand_total (mkFrame ["dog"] [("no_article", [2]); ("the", [2])])
    /\ merge_hapaxes df' = Ok df'.
Proof.
  apply (X22_main_keeps_counts_in_good_case Toy.nlp (Some 1000%Z)
           Toy.dog_corpus Toy.two_bare_dogs).
  - reflexivity.
  - vm_compute. reflexivity.
  - vm_compute. repeat constructor.
Defined.
